(** * Gallery server: a shallow embedding of [server.js]

    The file [server.js] holds two copies of the server: the first one
    (lines 1-302) keeps uploaded binaries on the local disk, the second
    one (lines 303-621) sends them to Cloudinary.  The credential store,
    the session checks, the category registry and the image listing are
    the same text in both copies and are embedded once; the upload, the
    download and the delete handlers differ and live in the modules
    [Local] and [Cloud].

    Handlers are functions from the state they read (the in-memory arrays
    [users], [categories], [images], the session of the request and the
    storage backend) to a response and the state they leave behind.  An
    exception of a collaborator is the [None] of an [option]; the
    [try]/[catch] of a handler is the [match] on it. *)

From Stdlib Require Import ZArith List String Ascii Bool Lia.
Import ListNotations.
Local Open Scope string_scope.
Local Open Scope list_scope.
Local Open Scope Z_scope.

(** ** JavaScript values used by the handlers *)

Module JS.

(** The numbers the handlers compute with are array lengths, ids and the
    results of [parseInt]: integers, or NaN.  [Num z] is the integer [z]
    itself.  The language holds a double instead, which is the same
    number as long as [z] is below 2^53 in magnitude and the nearest
    double beyond; a property that depends on a parsed number is stated
    for numbers below 2^53 (see [safe]). *)
Inductive number : Type :=
| NaN
| Num (z : Z).

(** The values a field of a JSON body can hold; [Undefined] is the
    absent field and [Object] any object or array. *)
Inductive value : Type :=
| Undefined
| Null
| Bool (b : bool)
| Number (n : number)
| Str (s : string)
| Object.

(** [a === b] on numbers: NaN is different from everything, itself
    included. *)
Definition strict_eq (a b : number) : bool :=
  match a, b with
  | Num x, Num y => x =? y
  | _, _ => false
  end.

(** Truthiness of a string: every string but the empty one. *)
Definition truthy_string (s : string) : bool :=
  match s with
  | EmptyString => false
  | String _ _ => true
  end.

(** Truthiness of a field that may be [undefined]. *)
Definition truthy_field (f : option string) : bool :=
  match f with
  | None => false
  | Some s => truthy_string s
  end.

Definition truthy_number (n : number) : bool :=
  match n with
  | NaN => false
  | Num z => negb (z =? 0)
  end.

(** White space of the language among the code units below 256: TAB, LF,
    VT, FF, CR, SP and NBSP.  It is what [parseInt] skips and what the
    class [\s] of a regular expression matches. *)
Definition is_white_space (c : ascii) : bool :=
  let n := nat_of_ascii c in
  ((9 <=? n) && (n <=? 13) || (n =? 32) || (n =? 160))%nat.

Fixpoint trim_start (s : string) : string :=
  match s with
  | String c s' => if is_white_space c then trim_start s' else s
  | EmptyString => s
  end.

(** Value of a digit in the largest radix, 36. *)
Definition digit_value (c : ascii) : option Z :=
  let n := Z.of_nat (nat_of_ascii c) in
  if (48 <=? n) && (n <=? 57) then Some (n - 48)
  else if (97 <=? n) && (n <=? 122) then Some (n - 87)
  else if (65 <=? n) && (n <=? 90) then Some (n - 55)
  else None.

(** The longest prefix of radix-[R] digits, read most significant digit
    first; [acc] is [None] as long as no digit has been read. *)
Fixpoint parse_digits (R : Z) (s : string) (acc : option Z) : option Z :=
  match s with
  | String c s' =>
      match digit_value c with
      | Some d =>
          if d <? R
          then parse_digits R s' (Some (match acc with
                                        | Some a => a * R + d
                                        | None => d
                                        end))
          else acc
      | None => acc
      end
  | EmptyString => acc
  end.

(** [parseInt(s)] with no radix: leading white space, a sign, a [0x] or
    [0X] prefix that switches to radix 16, then the digits; NaN when
    there is no digit. *)
Definition parseInt (s : string) : number :=
  let s1 := trim_start s in
  let '(sign, s2) :=
    match s1 with
    | String "-" r => (-1, r)
    | String "+" r => (1, r)
    | _ => (1, s1)
    end in
  let '(R, s3) :=
    match s2 with
    | String "0" (String "x" r) => (16, r)
    | String "0" (String "X" r) => (16, r)
    | _ => (10, s2)
    end in
  match parse_digits R s3 None with
  | Some n => Num (sign * n)
  | None => NaN
  end.

(** [parseInt] of a field of the request: an absent field is the value
    [undefined], whose string is "undefined". *)
Definition parseInt_field (f : option string) : number :=
  parseInt (match f with
            | Some s => s
            | None => "undefined"
            end).

(** The string of an integer, as [String(n)] or [n + '-'] gives it:
    decimal digits, a minus sign in front of a negative one.  The fuel
    of [digits_of] is the number of binary digits, which is never less
    than the number of decimal ones. *)
Definition digit_char (d : Z) : ascii :=
  ascii_of_nat (Z.to_nat (48 + d)).

Fixpoint digits_of (fuel : nat) (n : Z) (acc : string) : string :=
  match fuel with
  | O => acc
  | S fuel' =>
      let acc' := String (digit_char (n mod 10)) acc in
      if n <? 10 then acc' else digits_of fuel' (n / 10) acc'
  end.

Definition toString (n : Z) : string :=
  if n <? 0
  then String "-" (digits_of (S (Z.to_nat (Z.log2 (- n)))) (- n) "")
  else digits_of (S (Z.to_nat (Z.log2 n))) n "".

(** [s.replace(/\s/g, '-')]. *)
Fixpoint replace_white_space (s : string) : string :=
  match s with
  | String c s' =>
      String (if is_white_space c then "-"%char else c)
             (replace_white_space s')
  | EmptyString => EmptyString
  end.

(** [l.includes(x)] on an array of strings. *)
Definition includes (l : list string) (x : string) : bool :=
  existsb (String.eqb x) l.

(** [l.findIndex(p)]: the index of the first element that satisfies [p];
    [None] stands for -1. *)
Fixpoint findIndex {A : Type} (p : A -> bool) (l : list A) : option nat :=
  match l with
  | [] => None
  | x :: l' => if p x then Some O else option_map S (findIndex p l')
  end.

(** [l.splice(i, 1)], for the array it leaves. *)
Fixpoint splice1 {A : Type} (i : nat) (l : list A) : list A :=
  match l, i with
  | [], _ => []
  | _ :: l', O => l'
  | x :: l', S i' => x :: splice1 i' l'
  end.

End JS.

(** ** Data model *)

Module User.
Record t : Type := mk {
  id : Z;
  username : string;
  password : string;    (* the bcrypt hash *)
  isAdmin : bool
}.
End User.

Module Category.
Record t : Type := mk {
  id : Z;
  name : string;
  createdAt : Z
}.
End Category.

(** The record of the disk copy has the fields [id], [fileName],
    [originalName], [categoryId], [uploadedBy], [uploadedAt] and [path];
    the Cloudinary copy adds [cloudinaryUrl] and [cloudinaryPublicId],
    which are [undefined] in a record of the disk copy. *)
Module Image.
Record t : Type := mk {
  id : Z;
  fileName : string;
  originalName : string;
  cloudinaryUrl : option string;
  cloudinaryPublicId : option string;
  categoryId : JS.number;
  uploadedBy : option string;
  uploadedAt : Z;
  path : string
}.
End Image.

(** [req.session]: the three properties that login sets; each is
    [undefined] until then and after [destroy]. *)
Module Session.
Record t : Type := mk {
  userId : option Z;
  username : option string;
  isAdmin : option bool
}.
Definition empty : t := mk None None None.
End Session.

(** [req.files.image], as express-fileupload hands it over. *)
Module UploadedFile.
Record t : Type := mk {
  name : string;
  mimetype : string;
  data : string
}.
End UploadedFile.

(** The JSON bodies and the other answers the handlers send;
    [ErrorPage] is the page of the framework's own error handler. *)
Inductive body : Type :=
| Error (error : string)
| Message (message : string)
| SignedUp (message : string) (isAdmin : bool)
| LoggedIn (message : string) (isAdmin : bool) (username : string)
| AuthStatus (authenticated : bool) (isAdmin : option bool)
             (username : option string)
| OfCategory (c : Category.t)
| OfCategories (l : list Category.t)
| OfImage (i : Image.t)
| OfImages (l : list Image.t)
| Download (filePath : string) (filename : string)
| Redirect (url : option string)
| ErrorPage.

Record response : Type := mkResponse {
  status : Z;
  sent : body
}.

(** [res.json(b)] and [res.status(c).json({ error: e })]. *)
Definition json (b : body) : response := mkResponse 200 b.
Definition fail (code : Z) (e : string) : response := mkResponse code (Error e).

(** The three arrays of the process and the storage backend. *)
Record state (S : Type) : Type := mkState {
  users : list User.t;
  categories : list Category.t;
  images : list Image.t;
  storage : S
}.
Arguments mkState {S}.
Arguments users {S}.
Arguments categories {S}.
Arguments images {S}.
Arguments storage {S}.

(** The environment variables the credential store reads. *)
Record Env : Type := mkEnv {
  ADMIN_USERNAME : option string;
  ADMIN_PASSWORD : option string
}.

(** [process.env.X || d]. *)
Definition or_default (v : option string) (d : string) : string :=
  match v with
  | Some s => if JS.truthy_string s then s else d
  | None => d
  end.

(** ** Collaborators *)

(** bcryptjs.  [hash s rounds] draws a salt; the draw is an argument here.
    [compare s h] tells whether [h] is a hash of [s]. *)
Class Bcrypt : Type := {
  salt : Type;
  hash : string -> Z -> salt -> string;
  compare : string -> string -> bool
}.

(** What the handlers rely on: a hash verifies the string it was made
    from.  Which other strings it verifies is left to the library:
    bcryptjs keys its cipher with the first 72 bytes of the string only,
    so that a string with the same 72 bytes verifies as well. *)
Class BcryptSpec (B : Bcrypt) : Prop := {
  compare_hash :
    forall (s : string) (rounds : Z) (r : salt),
      compare s (hash s rounds r) = true
}.

(** The disk of the first copy.  [uploads_path f] is
    [path.join(__dirname, 'uploads', f)]; [mv] is the [mv] method of an
    uploaded file and [unlinkSync] is [fs.unlinkSync]; [None] is the error
    handed to the callback, or the exception.  [readable d p] tells
    whether [res.download] finds a file to send at the path [p]; it does
    at the path a file has just been moved to. *)
Class FileSystem : Type := {
  disk : Type;
  uploads_path : string -> string;
  mv : disk -> UploadedFile.t -> string -> option disk;
  unlinkSync : disk -> string -> option disk;
  readable : disk -> string -> bool;
  mv_readable :
    forall (d d' : disk) (f : UploadedFile.t) (p : string),
      mv d f p = Some d' -> readable d' p = true
}.

(** The media host of the second copy.  [upload_stream] answers with
    [secure_url] and [public_id]; [None] is a rejected promise. *)
Class Cloudinary : Type := {
  cloud : Type;
  upload_stream : cloud -> string -> option (cloud * (string * string));
  destroy : cloud -> option string -> option cloud
}.

(** ** Credential store

    A signup is modelled for a username and a password that are strings
    of the JSON body; the empty string is the falsy one among them.  A
    login takes its two fields as any value of the body.  The handlers
    run after the module has been loaded; [signup] is a signup that no
    other signup overlaps, and [signup_begin], [signup_finish] and
    [signup_events] are its steps and the runs in which signups
    overlap. *)

Section Credentials.
Context {B : Bcrypt}.

Definition initial_users : list User.t := [].

Definition initializeAdmin (env : Env) (r : salt) (users : list User.t)
  : list User.t :=
  let hashedPassword := hash (or_default (ADMIN_PASSWORD env) "admin123") 10 r in
  users ++ [ User.mk 1 (or_default (ADMIN_USERNAME env) "admin")
                     hashedPassword true ].

(** The user array once the module is loaded: [let users = []] followed
    by [initializeAdmin()]. *)
Definition startup_users (env : Env) (r : salt) : list User.t :=
  initializeAdmin env r initial_users.

Definition by_username (username : string) (u : User.t) : bool :=
  String.eqb (User.username u) username.

(** POST /api/signup *)
Definition signup (users : list User.t) (username password : string)
           (r : salt) : response * list User.t :=
  if negb (JS.truthy_string username) || negb (JS.truthy_string password)
  then (fail 400 "Username and password required", users)
  else
    match find (by_username username) users with
    | Some _ => (fail 400 "Username already exists", users)
    | None =>
        let hashedPassword := hash password 10 r in
        let newUser :=
          User.mk (Z.of_nat (List.length users) + 1) username hashedPassword
                  (Z.of_nat (List.length users) =? 0) in
        (json (SignedUp "User created successfully" (User.isAdmin newUser)),
         users ++ [newUser])
    end.

(** [u.username === username] for a field of the body: stored usernames
    are strings, and only the same string is equal to one. *)
Definition has_username (username : JS.value) (u : User.t) : bool :=
  match username with
  | JS.Str s => by_username s u
  | _ => false
  end.

(** POST /api/login.  The two fields are taken from the body as they
    are.  [bcrypt.compare] rejects a first argument that is no string;
    the rejection is thrown at the [await] and caught by the handler. *)
Definition login (users : list User.t) (session : Session.t)
           (username password : JS.value) : response * Session.t :=
  match find (has_username username) users with
  | None => (fail 401 "Invalid credentials", session)
  | Some user =>
      match password with
      | JS.Str password =>
          let validPassword := compare password (User.password user) in
          if negb validPassword
          then (fail 401 "Invalid credentials", session)
          else
            (json (LoggedIn "Login successful" (User.isAdmin user)
                            (User.username user)),
             Session.mk (Some (User.id user)) (Some (User.username user))
                        (Some (User.isAdmin user)))
      | _ => (fail 500 "Server error", session)
      end
  end.

(** The signup handler in its two steps.  [signup_begin] is the part up
    to the [await] of [bcrypt.hash] (lines 79-87): it answers at once, or
    leaves the request waiting for its hash.  [signup_finish] is the part
    after it (lines 90-98), run on the array as it is by then. *)
Definition signup_begin (users : list User.t) (username password : string)
  : option response :=
  if negb (JS.truthy_string username) || negb (JS.truthy_string password)
  then Some (fail 400 "Username and password required")
  else
    match find (by_username username) users with
    | Some _ => Some (fail 400 "Username already exists")
    | None => None
    end.

Definition signup_finish (users : list User.t) (username password : string)
           (r : salt) : response * list User.t :=
  let hashedPassword := hash password 10 r in
  let newUser :=
    User.mk (Z.of_nat (List.length users) + 1) username hashedPassword
            (Z.of_nat (List.length users) =? 0) in
  (json (SignedUp "User created successfully" (User.isAdmin newUser)),
   users ++ [newUser]).

(** What happens to the user array when signups overlap: a signup
    begins, or the hash of the [i]-th waiting signup arrives and that
    signup finishes. *)
Inductive signup_event : Type :=
| Begin (username password : string) (r : salt)
| Finish (i : nat).

Fixpoint signup_events (users : list User.t)
         (waiting : list (string * string * salt))
         (evs : list signup_event) : list User.t :=
  match evs with
  | [] => users
  | Begin username password r :: evs' =>
      match signup_begin users username password with
      | Some _ => signup_events users waiting evs'
      | None => signup_events users (waiting ++ [(username, password, r)]) evs'
      end
  | Finish i :: evs' =>
      match nth_error waiting i with
      | Some (username, password, r) =>
          signup_events (snd (signup_finish users username password r))
                        (JS.splice1 i waiting) evs'
      | None => signup_events users waiting evs'
      end
  end.

(** A run of signups that do not overlap, each handled to its answer
    before the next one arrives, each with its own salt: the answers in
    order and the array at the end. *)
Fixpoint signups (users : list User.t)
         (reqs : list (string * string * salt))
  : list response * list User.t :=
  match reqs with
  | [] => ([], users)
  | (username, password, r) :: reqs' =>
      let '(res, users1) := signup users username password r in
      let '(ress, users2) := signups users1 reqs' in
      (res :: ress, users2)
  end.

End Credentials.

(** POST /api/logout *)
Definition logout (session : Session.t) : response * Session.t :=
  (json (Message "Logged out successfully"), Session.empty).

Definition truthy_userId (session : Session.t) : bool :=
  match Session.userId session with
  | Some n => negb (n =? 0)
  | None => false
  end.

Definition truthy_isAdmin (session : Session.t) : bool :=
  match Session.isAdmin session with
  | Some b => b
  | None => false
  end.

(** GET /api/check-auth *)
Definition check_auth (session : Session.t) : response :=
  if truthy_userId session
  then json (AuthStatus true (Session.isAdmin session)
                        (Session.username session))
  else json (AuthStatus false None None).

(** ** Access policy *)

(** The two middlewares: [next] is the handler behind the guard, [st] the
    state the guard leaves untouched when it answers itself. *)
Definition isAuthenticated {St : Type} (session : Session.t)
           (next : response * St) (st : St) : response * St :=
  if truthy_userId session then next
  else (fail 401 "Not authenticated", st).

Definition isAdmin {St : Type} (session : Session.t)
           (next : response * St) (st : St) : response * St :=
  if truthy_userId session && truthy_isAdmin session then next
  else (fail 403 "Admin access required", st).

(** ** Category registry *)

Section Registries.
Context {S : Type}.

Definition set_categories (st : state S) (l : list Category.t) : state S :=
  mkState (users st) l (images st) (storage st).

Definition set_images (st : state S) (l : list Image.t) (s : S) : state S :=
  mkState (users st) (categories st) l s.

(** POST /api/categories; [now] is the clock read by [new Date()]. *)
Definition create_category (st : state S) (session : Session.t)
           (name : string) (now : Z) : response * state S :=
  isAdmin session
    (if negb (JS.truthy_string name)
     then (fail 400 "Category name required", st)
     else
       let newCategory :=
         Category.mk (Z.of_nat (List.length (categories st)) + 1) name now in
       (json (OfCategory newCategory),
        set_categories st (categories st ++ [newCategory])))
    st.

(** GET /api/categories *)
Definition list_categories (st : state S) : response :=
  json (OfCategories (categories st)).

(** ** Image registry: the part common to both copies *)

(** GET /api/images; [categoryId] is [req.query.categoryId]. *)
Definition filter_images (images : list Image.t)
           (categoryId : option string) : list Image.t :=
  if JS.truthy_field categoryId
  then filter (fun img => JS.strict_eq (Image.categoryId img)
                                       (JS.parseInt_field categoryId))
              images
  else images.

Definition list_images (st : state S) (categoryId : option string)
  : response :=
  json (OfImages (filter_images (images st) categoryId)).

Definition by_id (imageId : JS.number) (img : Image.t) : bool :=
  JS.strict_eq (JS.Num (Image.id img)) imageId.

End Registries.

(** ** Image registry, first copy: binaries on the local disk *)

Module Local.
Section Handlers.
Context {F : FileSystem}.

Definition allowedTypes : list string :=
  ["image/jpeg"; "image/jpg"; "image/png"; "image/gif"].

(** [Date.now() + '-' + image.name.replace(/\s/g, '-')] *)
Definition fileName (now : Z) (image : UploadedFile.t) : string :=
  (JS.toString now ++ "-"
   ++ JS.replace_white_space (UploadedFile.name image))%string.

(** The record [newImage] of the upload handler. *)
Definition newImage (st : state disk) (session : Session.t)
           (image : UploadedFile.t) (categoryId : option string)
           (now uploadedAt : Z) : Image.t :=
  Image.mk (Z.of_nat (List.length (images st)) + 1)
           (fileName now image) (UploadedFile.name image) None None
           (JS.parseInt_field categoryId)
           (Session.username session) uploadedAt
           ("/uploads/" ++ fileName now image)%string.

(** POST /api/upload.  [now] is the clock read by [Date.now()] for the
    file name, [uploadedAt] the one read by [new Date()] in the callback
    of [mv]. *)
Definition upload (st : state disk) (session : Session.t)
           (image : option UploadedFile.t) (categoryId : option string)
           (now uploadedAt : Z) : response * state disk :=
  isAdmin session
    (match image with
     | None => (fail 400 "No image uploaded", st)
     | Some image =>
         if negb (JS.includes allowedTypes (UploadedFile.mimetype image))
         then (fail 400 "Only image files allowed", st)
         else
           let uploadPath := uploads_path (fileName now image) in
           match mv (storage st) image uploadPath with
           | None => (fail 500 "Failed to upload image", st)
           | Some d =>
               let newImage :=
                 newImage st session image categoryId now uploadedAt in
               (json (OfImage newImage),
                set_images st (images st ++ [newImage]) d)
           end
     end)
    st.

(** GET /api/download/:id.  [res.download] sends the file when there is
    one at the path; when there is none its error goes to the error
    handler of the framework, which answers 404. *)
Definition download (st : state disk) (session : Session.t) (id : string)
  : response * state disk :=
  isAdmin session
    (let imageId := JS.parseInt id in
     match find (by_id imageId) (images st) with
     | None => (fail 404 "Image not found", st)
     | Some image =>
         let filePath := uploads_path (Image.fileName image) in
         if readable (storage st) filePath
         then (mkResponse 200 (Download filePath (Image.originalName image)),
               st)
         else (mkResponse 404 ErrorPage, st)
     end)
    st.

(** DELETE /api/images/:id.  Reading [fileName] off an [undefined]
    element and a failing [unlinkSync] both throw into the [catch]. *)
Definition delete (st : state disk) (session : Session.t) (id : string)
  : response * state disk :=
  isAdmin session
    (let imageId := JS.parseInt id in
     match JS.findIndex (by_id imageId) (images st) with
     | None => (fail 404 "Image not found", st)
     | Some imageIndex =>
         match nth_error (images st) imageIndex with
         | None => (fail 500 "Server error", st)
         | Some image =>
             let filePath := uploads_path (Image.fileName image) in
             match unlinkSync (storage st) filePath with
             | None => (fail 500 "Server error", st)
             | Some d =>
                 (json (Message "Image deleted successfully"),
                  set_images st (JS.splice1 imageIndex (images st)) d)
             end
         end
     end)
    st.

End Handlers.
End Local.

(** ** Image registry, second copy: binaries on Cloudinary *)

Module Cloud.
Section Handlers.
Context {C : Cloudinary}.

Definition allowedTypes : list string :=
  ["image/jpeg"; "image/jpg"; "image/png"; "image/gif"; "image/webp"].

(** The record [newImage] of the upload handler, from the answer of
    Cloudinary. *)
Definition newImage (st : state cloud) (session : Session.t)
           (image : UploadedFile.t) (categoryId : option string)
           (uploadedAt : Z) (secure_url public_id : string) : Image.t :=
  Image.mk (Z.of_nat (List.length (images st)) + 1)
           (UploadedFile.name image) (UploadedFile.name image)
           (Some secure_url) (Some public_id)
           (JS.parseInt_field categoryId)
           (Session.username session) uploadedAt secure_url.

(** POST /api/upload.  A rejected upload promise is caught. *)
Definition upload (st : state cloud) (session : Session.t)
           (image : option UploadedFile.t) (categoryId : option string)
           (uploadedAt : Z) : response * state cloud :=
  isAdmin session
    (match image with
     | None => (fail 400 "No image uploaded", st)
     | Some image =>
         if negb (JS.includes allowedTypes (UploadedFile.mimetype image))
         then (fail 400 "Only image files allowed", st)
         else
           match upload_stream (storage st) (UploadedFile.data image) with
           | None => (fail 500 "Failed to upload image to Cloudinary", st)
           | Some (c, (secure_url, public_id)) =>
               let newImage :=
                 newImage st session image categoryId uploadedAt
                          secure_url public_id in
               (json (OfImage newImage),
                set_images st (images st ++ [newImage]) c)
           end
     end)
    st.

(** GET /api/download/:id *)
Definition download (st : state cloud) (session : Session.t) (id : string)
  : response * state cloud :=
  isAdmin session
    (let imageId := JS.parseInt id in
     match find (by_id imageId) (images st) with
     | None => (fail 404 "Image not found", st)
     | Some image =>
         (mkResponse 302 (Redirect (Image.cloudinaryUrl image)), st)
     end)
    st.

(** DELETE /api/images/:id *)
Definition delete (st : state cloud) (session : Session.t) (id : string)
  : response * state cloud :=
  isAdmin session
    (let imageId := JS.parseInt id in
     match JS.findIndex (by_id imageId) (images st) with
     | None => (fail 404 "Image not found", st)
     | Some imageIndex =>
         match nth_error (images st) imageIndex with
         | None => (fail 500 "Failed to delete image", st)
         | Some image =>
             match destroy (storage st) (Image.cloudinaryPublicId image) with
             | None => (fail 500 "Failed to delete image", st)
             | Some c =>
                 (json (Message "Image deleted successfully"),
                  set_images st (JS.splice1 imageIndex (images st)) c)
             end
         end
     end)
    st.

End Handlers.
End Cloud.

(** ** Reference collaborators

    Small instances of the three interfaces, on which the handlers can be
    run: a hash that keeps its one-character salt in front of the plain
    text, a disk that is a list of paths with their contents, and a media
    host that numbers what it stores. *)

Module Ref.

Definition bcrypt : Bcrypt := {|
  salt := ascii;
  hash := fun s _ r => String r s;
  compare := fun s h =>
    match h with
    | String _ t => String.eqb s t
    | EmptyString => false
    end
|}.




Fixpoint remove_path (p : string) (d : list (string * string))
  : option (list (string * string)) :=
  match d with
  | [] => None
  | (q, c) :: d' =>
      if String.eqb p q then Some d'
      else option_map (cons (q, c)) (remove_path p d')
  end.

Definition has_path (p : string) (d : list (string * string)) : bool :=
  existsb (fun e => String.eqb p (fst e)) d.

Definition fs_mv (d : list (string * string)) (image : UploadedFile.t)
           (p : string) : option (list (string * string)) :=
  Some ((p, UploadedFile.data image) :: d).

Definition fs_mv_readable (d d' : list (string * string))
           (f : UploadedFile.t) (p : string) :
  fs_mv d f p = Some d' -> has_path p d' = true.
Proof.
  unfold fs_mv. intros H. injection H as <-. cbn.
  rewrite String.eqb_refl. reflexivity.
Qed.

Definition fs : FileSystem := {|
  disk := list (string * string);
  uploads_path := fun f => ("/srv/gallery/uploads/" ++ f)%string;
  mv := fs_mv;
  unlinkSync := fun d p => remove_path p d;
  readable := fun d p => has_path p d;
  mv_readable := fs_mv_readable
|}.

Definition cloudinary : Cloudinary := {|
  cloud := list (string * string);
  upload_stream := fun c data =>
    let public_id :=
      ("gallery_uploads/" ++ JS.toString (Z.of_nat (List.length c)))%string in
    Some ((public_id, data) :: c,
          (("https://res.cloudinary.com/" ++ public_id)%string, public_id));
  destroy := fun c public_id =>
    match public_id with
    | Some p => remove_path p c
    | None => None
    end
|}.

Definition env : Env := mkEnv None None.

(** A session as login leaves it for the default admin. *)
Definition admin_session : Session.t :=
  Session.mk (Some 1) (Some "admin") (Some true).

Definition jpeg (name : string) : UploadedFile.t :=
  UploadedFile.mk name "image/jpeg" "JFIF".

End Ref.

(** ** Vocabulary of the properties *)

(** The characters "0" to "9". *)
Definition is_decimal (c : ascii) : Prop :=
  exists d, 0 <= d < 10 /\ c = JS.digit_char d.

(** A successful answer, and the admin flag a signup answer reports. *)
Definition ok (r : response) : bool := status r =? 200.

Definition reported (r : response) : option bool :=
  match sent r with
  | SignedUp _ b => Some b
  | _ => None
  end.

(** The admin flags that the successful signups of a run report. *)
Definition flags (rs : list response) : list (option bool) :=
  map reported (filter ok rs).

(** The admin flags of stored users, in the order of the array. *)
Definition stored_flags (us : list User.t) : list (option bool) :=
  map (fun u => Some (User.isAdmin u)) us.

(** The first flag is [true] and the later ones are [false]; all flags
    are [false]. *)
Definition first_is_admin (fl : list (option bool)) : Prop :=
  match fl with
  | [] => True
  | f :: rest => f = Some true /\ Forall (eq (Some false)) rest
  end.

Definition none_is_admin (fl : list (option bool)) : Prop :=
  Forall (eq (Some false)) fl.

(** The two outcomes of a login. *)
Definition logged_in (u : User.t) : response * Session.t :=
  (json (LoggedIn "Login successful" (User.isAdmin u) (User.username u)),
   Session.mk (Some (User.id u)) (Some (User.username u))
              (Some (User.isAdmin u))).

Definition rejected (session : Session.t) : response * Session.t :=
  (fail 401 "Invalid credentials", session).

(** A login whose password is no string. *)
Definition server_error (session : Session.t) : response * Session.t :=
  (fail 500 "Server error", session).

(** [u] is the first user of the array under the username [name]. *)
Definition first_named (name : string) (users : list User.t) (u : User.t)
  : Prop :=
  exists l1 l2,
    users = l1 ++ u :: l2 /\ User.username u = name
    /\ (forall v, In v l1 -> User.username v <> name).

(** The user that a signup pushes onto the array [users]. *)
Definition new_user {B : Bcrypt} (users : list User.t)
           (username password : string) (r : salt) : User.t :=
  User.mk (Z.of_nat (List.length users) + 1) username (hash password 10 r)
          (Z.of_nat (List.length users) =? 0).

(** The invariant of the user array: no username occurs twice. *)
Definition unique_usernames (users : list User.t) : Prop :=
  NoDup (map User.username users).

(** The integers that the doubles of the language hold exactly, one next
    to the other: for these the number that [parseInt] reads and the
    string of a number are the ones of the model. *)
Definition safe (z : Z) : Prop := Z.abs z < 2 ^ 53.

(** The images of category [K], in the order of the registry. *)
Definition has_category (K : Z) (img : Image.t) : bool :=
  match Image.categoryId img with
  | JS.Num z => Z.eqb z K
  | JS.NaN => false
  end.

Definition in_category (K : Z) (imgs : list Image.t) : list Image.t :=
  filter (has_category K) imgs.

(** What a delete of the image [K] may do to the state [st], given how
    the backend removes the binary of an image and how the handler
    answers when that fails: no image has the id, the answer is 404 and
    the state is as before; or the first image with the id is taken out
    of the registry together with its binary, the others staying in
    place; or the removal of the binary fails and the state is as
    before. *)
Definition delete_outcome {S : Type} (K : Z)
           (remove : S -> Image.t -> option S) (failure : response)
           (st : state S) (result : response * state S) : Prop :=
  ((forall img, In img (images st) -> Image.id img <> K)
   /\ result = (fail 404 "Image not found", st))
  \/ (exists l1 img l2,
         images st = l1 ++ img :: l2
         /\ Image.id img = K
         /\ (forall y, In y l1 -> Image.id y <> K)
         /\ match remove (storage st) img with
            | Some s =>
                result = (mkResponse 200 (Message "Image deleted successfully"),
                          mkState (users st) (categories st) (l1 ++ l2) s)
            | None => result = (failure, st)
            end).

(** A numeric string, as the wording of C10 has it: decimal digits, at
    least one, after an optional sign. *)
Fixpoint all_decimal (s : string) : bool :=
  match s with
  | String c s' =>
      let n := nat_of_ascii c in
      ((48 <=? n) && (n <=? 57))%nat && all_decimal s'
  | EmptyString => true
  end.

Definition numeric_string (s : string) : bool :=
  let digits :=
    match s with
    | String "-" r => r
    | String "+" r => r
    | _ => s
    end in
  JS.truthy_string digits && all_decimal digits.

(** The ids of an array count up from 1 in the order of the array. *)
Definition sequential {A : Type} (id : A -> Z) (l : list A) : Prop :=
  forall (i : nat) (x : A), nth_error l i = Some x -> id x = Z.of_nat i + 1.

(** The user that [initializeAdmin] pushes. *)
Definition default_admin {B : Bcrypt} (env : Env) (r : salt) : User.t :=
  User.mk 1 (or_default (ADMIN_USERNAME env) "admin")
          (hash (or_default (ADMIN_PASSWORD env) "admin123") 10 r) true.

(** The user array of the server after a run of signups. *)
Definition server_users {B : Bcrypt} (env : Env) (r : salt)
           (reqs : list (string * string * salt)) : list User.t :=
  snd (signups (startup_users env r) reqs).

(** The events of a run in which each signup finishes before the next
    one begins. *)
Definition one_at_a_time {B : Bcrypt} (reqs : list (string * string * salt))
  : list signup_event :=
  flat_map (fun req => match req with
                       | (username, password, r) =>
                           [Begin username password r; Finish 0]
                       end) reqs.

(** What the user array of the server keeps under any run of signups: no
    empty username, ids that count up from 1, the default admin in front
    and no other admin. *)
Definition well_formed_users {B : Bcrypt} (env : Env) (r : salt)
           (users : list User.t) : Prop :=
  (forall u, In u users -> User.username u <> "")
  /\ sequential User.id users
  /\ exists rest,
       users = default_admin env r :: rest
       /\ Forall (fun u => User.isAdmin u = false) rest.

(** What a download of the image [K] answers on the state [st], given
    what the backend serves for an image: 404 when no image has the id,
    and otherwise what it serves for the first image with the id; the
    state is as before in both cases. *)
Definition download_outcome {S : Type} (K : Z) (serve : Image.t -> response)
           (st : state S) (result : response * state S) : Prop :=
  ((forall img, In img (images st) -> Image.id img <> K)
   /\ result = (fail 404 "Image not found", st))
  \/ (exists l1 img l2,
         images st = l1 ++ img :: l2
         /\ Image.id img = K
         /\ (forall y, In y l1 -> Image.id y <> K)
         /\ result = (serve img, st)).

(** Every character of a string satisfies [p]. *)
Fixpoint every (p : ascii -> bool) (s : string) : bool :=
  match s with
  | String c s' => p c && every p s'
  | EmptyString => true
  end.

(** A character that is no white space. *)
Definition not_white_space (c : ascii) : bool := negb (JS.is_white_space c).

(** * Properties *)

(** ** [parseInt] and the string of an integer *)

Ltac decimal_cases H :=
  let d := fresh "d" in
  let Hd := fresh "Hd" in
  destruct H as (d & Hd & ->);
  assert (d = 0 \/ d = 1 \/ d = 2 \/ d = 3 \/ d = 4 \/ d = 5 \/ d = 6
          \/ d = 7 \/ d = 8 \/ d = 9) as Hd' by lia;
  clear Hd;
  repeat (destruct Hd' as [-> | Hd']); [ .. | subst d ].

Lemma digit_value_char (d : Z) :
  0 <= d < 10 -> JS.digit_value (JS.digit_char d) = Some d.
Proof.
  intros Hd.
  assert (d = 0 \/ d = 1 \/ d = 2 \/ d = 3 \/ d = 4 \/ d = 5 \/ d = 6
          \/ d = 7 \/ d = 8 \/ d = 9) as Hd' by lia.
  repeat (destruct Hd' as [-> | Hd']); try subst d; reflexivity.
Qed.

Lemma parse_digits_of (fuel : nat) :
  forall (n : Z) (acc : string),
    fuel <> O ->
    0 <= n < 10 ^ Z.of_nat fuel ->
    JS.parse_digits 10 (JS.digits_of fuel n acc) None
    = JS.parse_digits 10 acc (Some n).
Proof.
  induction fuel as [| fuel IH]; intros n acc Hf Hn.
  - congruence.
  - assert (0 <= n mod 10 < 10) as Hm by (apply Z.mod_pos_bound; lia).
    cbn [JS.digits_of]. destruct (n <? 10) eqn:Hlt.
    + apply Z.ltb_lt in Hlt.
      cbn [JS.parse_digits]. rewrite digit_value_char by assumption.
      replace (n mod 10 <? 10) with true by (symmetry; apply Z.ltb_lt; lia).
      rewrite Z.mod_small by lia. reflexivity.
    + apply Z.ltb_ge in Hlt.
      rewrite IH.
      * cbn [JS.parse_digits]. rewrite digit_value_char by assumption.
        replace (n mod 10 <? 10) with true by (symmetry; apply Z.ltb_lt; lia).
        do 2 f_equal. pose proof (Z.div_mod n 10 ltac:(lia)). lia.
      * intros ->. simpl in Hn. lia.
      * rewrite Nat2Z.inj_succ, Z.pow_succ_r in Hn by lia.
        split; [apply Z.div_pos; lia |].
        apply Z.div_lt_upper_bound; lia.
Qed.

Lemma digits_of_shape (fuel : nat) :
  forall (n : Z) (acc : string),
    fuel <> O ->
    (acc = "" \/ exists c r, acc = String c r /\ is_decimal c) ->
    exists c rest,
      JS.digits_of fuel n acc = String c rest /\ is_decimal c
      /\ (rest = "" \/ exists c' r', rest = String c' r' /\ is_decimal c').
Proof.
  induction fuel as [| fuel IH]; intros n acc Hf Hacc; [congruence |].
  assert (is_decimal (JS.digit_char (n mod 10))) as Hdec.
  { exists (n mod 10). split; [apply Z.mod_pos_bound; lia | reflexivity]. }
  cbn [JS.digits_of]. destruct (n <? 10).
  - exists (JS.digit_char (n mod 10)), acc. auto.
  - destruct fuel as [| fuel'].
    + exists (JS.digit_char (n mod 10)), acc. auto.
    + apply IH; [congruence |]. right. eauto.
Qed.

Lemma parseInt_unsigned (c : ascii) (rest : string) :
  is_decimal c ->
  (rest = "" \/ exists c' r', rest = String c' r' /\ is_decimal c') ->
  JS.parseInt (String c rest)
  = match JS.parse_digits 10 (String c rest) None with
    | Some n => JS.Num (1 * n)
    | None => JS.NaN
    end.
Proof.
  intros Hc [-> | (c' & r' & -> & Hc')].
  - decimal_cases Hc; reflexivity.
  - decimal_cases Hc; try reflexivity.
    decimal_cases Hc'; reflexivity.
Qed.

Lemma parseInt_negative (c : ascii) (rest : string) :
  is_decimal c ->
  (rest = "" \/ exists c' r', rest = String c' r' /\ is_decimal c') ->
  JS.parseInt (String "-" (String c rest))
  = match JS.parse_digits 10 (String c rest) None with
    | Some n => JS.Num (-1 * n)
    | None => JS.NaN
    end.
Proof.
  intros Hc [-> | (c' & r' & -> & Hc')].
  - decimal_cases Hc; reflexivity.
  - decimal_cases Hc; try reflexivity.
    decimal_cases Hc'; reflexivity.
Qed.

Lemma log2_fuel (n : Z) :
  0 <= n -> 0 <= n < 10 ^ Z.of_nat (S (Z.to_nat (Z.log2 n))).
Proof.
  intros Hn. split; [assumption |].
  pose proof (Z.log2_nonneg n) as Hl.
  rewrite Nat2Z.inj_succ, Z2Nat.id by assumption.
  destruct (Z.eq_dec n 0) as [-> | Hnz].
  - reflexivity.
  - pose proof (Z.log2_spec n ltac:(lia)) as [_ Hub].
    apply Z.lt_le_trans with (1 := Hub).
    apply Z.pow_le_mono_l. lia.
Qed.

Example parseInt_examples :
  JS.parseInt "42" = JS.Num 42
  /\ JS.parseInt "  -7 apples" = JS.Num (-7)
  /\ JS.parseInt "12abc" = JS.Num 12
  /\ JS.parseInt "0x1F" = JS.Num 31
  /\ JS.parseInt "0x" = JS.NaN
  /\ JS.parseInt "abc" = JS.NaN
  /\ JS.parseInt "" = JS.NaN
  /\ JS.parseInt_field None = JS.NaN.
Proof. repeat split. Qed.

Example toString_examples :
  JS.toString 0 = "0" /\ JS.toString (-1203) = "-1203"
  /\ JS.toString 1700000000000 = "1700000000000".
Proof. repeat split. Qed.

(** The string of an integer reads back as that integer. *)
Lemma parseInt_toString (n : Z) : JS.parseInt (JS.toString n) = JS.Num n.
Proof.
  unfold JS.toString. destruct (n <? 0) eqn:Hneg.
  - apply Z.ltb_lt in Hneg.
    destruct (digits_of_shape (S (Z.to_nat (Z.log2 (- n)))) (- n) "")
      as (c & rest & E & Hc & Hrest); [congruence | auto |].
    pose proof (parse_digits_of _ (- n) "" (Nat.neq_succ_0 _)
                               (log2_fuel (- n) ltac:(lia))) as P.
    rewrite E in *. rewrite parseInt_negative, P by assumption.
    cbn [JS.parse_digits]. f_equal. lia.
  - apply Z.ltb_ge in Hneg.
    destruct (digits_of_shape (S (Z.to_nat (Z.log2 n))) n "")
      as (c & rest & E & Hc & Hrest); [congruence | auto |].
    pose proof (parse_digits_of _ n "" (Nat.neq_succ_0 _) (log2_fuel n Hneg))
      as P.
    rewrite E in *. rewrite parseInt_unsigned, P by assumption.
    cbn [JS.parse_digits]. f_equal. lia.
Qed.

Lemma toString_truthy (n : Z) : JS.truthy_string (JS.toString n) = true.
Proof.
  unfold JS.toString. destruct (n <? 0); [reflexivity |].
  destruct (digits_of_shape (S (Z.to_nat (Z.log2 n))) n "")
    as (c & rest & E & _); [congruence | auto |].
  rewrite E. reflexivity.
Qed.

(** ** Credential store *)

Section CredentialFacts.
Context {B : Bcrypt}.

Lemma signup_cases (users : list User.t) (username password : string)
      (r : salt) :
  (signup users username password r
   = (fail 400 "Username and password required", users)
   /\ (username = "" \/ password = ""))
  \/ (signup users username password r
      = (fail 400 "Username already exists", users)
      /\ username <> "" /\ password <> ""
      /\ exists u, find (by_username username) users = Some u)
  \/ (signup users username password r
      = (json (SignedUp "User created successfully"
                        (Z.of_nat (List.length users) =? 0)),
         users ++ [User.mk (Z.of_nat (List.length users) + 1) username
                           (hash password 10 r)
                           (Z.of_nat (List.length users) =? 0)])
      /\ username <> "" /\ password <> ""
      /\ find (by_username username) users = None).
Proof.
  unfold signup.
  destruct username as [| a username']; [left; auto |].
  destruct password as [| b password']; [left; auto |].
  cbn [JS.truthy_string negb orb].
  destruct (find _ users) as [u |].
  - right; left. repeat split; try discriminate. eauto.
  - right; right. repeat split; discriminate.
Qed.

Lemma signups_created (reqs : list (string * string * salt)) :
  forall users : list User.t,
  exists created,
    snd (signups users reqs) = users ++ created
    /\ stored_flags created = flags (fst (signups users reqs))
    /\ (users <> [] -> none_is_admin (stored_flags created))
    /\ (users = [] -> first_is_admin (stored_flags created)).
Proof.
  induction reqs as [| [[username password] r] reqs IH]; intros users.
  - exists []. cbn. rewrite app_nil_r.
    repeat split; auto; constructor.
  - cbn [signups].
    destruct (signup_cases users username password r)
      as [[E _] | [[E _] | [E _]]]; rewrite E;
      [ destruct (IH users) as (created & Hus & Hfl & Hne & Hnil) ..
      | destruct (IH (users ++ [User.mk (Z.of_nat (List.length users) + 1)
                                 username (hash password 10 r)
                                 (Z.of_nat (List.length users) =? 0)]))
          as (created & Hus & Hfl & Hne & _) ];
      destruct (signups _ reqs) as [ress users2]; cbn [fst snd] in *.
    + exists created. auto.
    + exists created. auto.
    + eexists (_ :: created). split; [| split; [| split]].
      * rewrite Hus, <- app_assoc. reflexivity.
      * unfold flags in *. cbn. rewrite <- Hfl. reflexivity.
      * intros Hu. constructor.
        -- cbn. destruct users; [congruence | reflexivity].
        -- apply Hne. destruct users; discriminate.
      * intros ->. cbn [stored_flags map first_is_admin].
        split; [reflexivity |]. apply Hne. discriminate.
Qed.

End CredentialFacts.

(** C1, as the code has it.  From the empty user array the first
    successful signup stores and reports [isAdmin = true] and every later
    one [isAdmin = false].  The array of the running server is not empty:
    [initializeAdmin] has pushed the default admin at load time, so every
    successful signup of a run on the server stores and reports
    [isAdmin = false]. *)
Theorem signup_admin_flag (B : Bcrypt) :
  (forall reqs : list (string * string * salt),
      first_is_admin (flags (fst (signups initial_users reqs)))
      /\ stored_flags (snd (signups initial_users reqs))
         = flags (fst (signups initial_users reqs)))
  /\ (forall (env : Env) (r : salt) (reqs : list (string * string * salt)),
         none_is_admin (flags (fst (signups (startup_users env r) reqs)))
         /\ stored_flags (skipn 1 (snd (signups (startup_users env r) reqs)))
            = flags (fst (signups (startup_users env r) reqs))).
Proof.
  split.
  - intros reqs.
    destruct (signups_created reqs initial_users)
      as (created & Hus & Hfl & _ & Hfirst).
    rewrite Hus, <- Hfl. cbn. auto.
  - intros env r reqs.
    destruct (signups_created reqs (startup_users env r))
      as (created & Hus & Hfl & Hnone & _).
    rewrite Hus, <- Hfl. cbn. split; [| reflexivity].
    apply Hnone. discriminate.
Qed.

(** C1, as it is stated, fails on the server: its first signup is not an
    admin. *)
Lemma first_signup_on_server_not_admin :
  ~ (forall reqs : list (string * string * ascii),
        first_is_admin
          (flags (fst (@signups Ref.bcrypt
                                (@startup_users Ref.bcrypt Ref.env "s"%char)
                                reqs)))).
Proof.
  intros H. specialize (H [("alice", "wonderland", "t"%char)]).
  cbn in H. destruct H as [H _]. discriminate H.
Qed.

Lemma find_by_username_some {B : Bcrypt} (users : list User.t)
      (username : string) :
  (exists u, In u users /\ User.username u = username) ->
  exists u, find (by_username username) users = Some u.
Proof.
  intros (u & Hin & Hu).
  destruct (find (by_username username) users) as [v |] eqn:E; [eauto |].
  apply (find_none _ _ E) in Hin. unfold by_username in Hin.
  rewrite Hu, String.eqb_refl in Hin. discriminate.
Qed.

(** C2, as the code has it.  A signup under the username of an existing
    user fails with status 400 and leaves the user array as it was; the
    error is "Username already exists" when the username and the password
    are both non-empty, and "Username and password required" otherwise:
    the test for empty fields comes first. *)
Theorem signup_duplicate (B : Bcrypt) (users : list User.t)
        (username password : string) (r : salt) :
  (exists u, In u users /\ User.username u = username) ->
  signup users username password r
  = (fail 400 (if JS.truthy_string username && JS.truthy_string password
               then "Username already exists"
               else "Username and password required"),
     users).
Proof.
  intros Hex. apply find_by_username_some in Hex as (u & Hfind).
  destruct (signup_cases users username password r)
    as [[E [-> | ->]] | [[E (Hu & Hp & _)] | [E (_ & _ & Hnone)]]].
  - exact E.
  - rewrite E, andb_false_r. reflexivity.
  - rewrite E. destruct username, password; try congruence. reflexivity.
  - congruence.
Qed.

Lemma signup_duplicate_witness :
  (exists u, In u (@startup_users Ref.bcrypt Ref.env "s"%char)
             /\ User.username u = "admin")
  /\ @signup Ref.bcrypt (@startup_users Ref.bcrypt Ref.env "s"%char)
             "admin" "letmein" "t"%char
     = (fail 400 "Username already exists",
        @startup_users Ref.bcrypt Ref.env "s"%char).
Proof.
  assert (exists u, In u (@startup_users Ref.bcrypt Ref.env "s"%char)
                    /\ User.username u = "admin") as H.
  { eexists. split; [left; reflexivity | reflexivity]. }
  split; [exact H |].
  exact (signup_duplicate Ref.bcrypt _ "admin" "letmein" "t"%char H).
Defined.

(** C2, as it is stated, fails for the empty password: the signup under
    the username of the default admin is refused for its missing field,
    not for the duplicate. *)
Lemma signup_duplicate_empty_password :
  (exists u, In u (@startup_users Ref.bcrypt Ref.env "s"%char)
             /\ User.username u = "admin")
  /\ fst (@signup Ref.bcrypt (@startup_users Ref.bcrypt Ref.env "s"%char)
                  "admin" "" "t"%char)
     = fail 400 "Username and password required"
  /\ fst (@signup Ref.bcrypt (@startup_users Ref.bcrypt Ref.env "s"%char)
                  "admin" "" "t"%char)
     <> fail 400 "Username already exists".
Proof.
  split; [| split].
  - eexists. split; [left; reflexivity | reflexivity].
  - reflexivity.
  - cbn. discriminate.
Qed.

(** ** Login *)

Section LoginFacts.
Context {B : Bcrypt}.

Lemma login_cases (users : list User.t) (session : Session.t)
      (username password : JS.value) :
  login users session username password
  = match find (has_username username) users with
    | Some u =>
        match password with
        | JS.Str plain =>
            if compare plain (User.password u) then logged_in u
            else rejected session
        | _ => server_error session
        end
    | None => rejected session
    end.
Proof.
  unfold login. destruct (find _ users) as [u |]; [| reflexivity].
  destruct password as [| | b | n | plain |]; try reflexivity.
  destruct (compare plain (User.password u)); reflexivity.
Qed.

Lemma has_username_Str (name : string) :
  has_username (JS.Str name) = by_username name.
Proof. reflexivity. Qed.

(** Only a string names a user. *)
Lemma find_no_string (users : list User.t) (username : JS.value) :
  (forall name, username <> JS.Str name) ->
  find (has_username username) users = None.
Proof.
  intros H. induction users as [| v users IH]; [reflexivity |].
  cbn [find]. destruct username; try exact IH. elim (H s eq_refl).
Qed.

Lemma find_first_named (users : list User.t) (name : string) (u : User.t) :
  find (by_username name) users = Some u <-> first_named name users u.
Proof.
  split.
  - induction users as [| v users IH]; cbn [find]; [discriminate |].
    destruct (by_username name v) eqn:E.
    + intros H. injection H as <-. exists [], users.
      repeat split; [apply String.eqb_eq; exact E | intros w []].
    + intros H. destruct (IH H) as (l1 & l2 & -> & Hu & Hl1).
      exists (v :: l1), l2. repeat split; auto.
      intros w [<- | Hw]; [| auto].
      intros Hv. unfold by_username in E. rewrite Hv, String.eqb_refl in E.
      discriminate.
  - intros (l1 & l2 & -> & Hu & Hl1).
    induction l1 as [| v l1 IH]; cbn [find app].
    + unfold by_username. rewrite Hu, String.eqb_refl. reflexivity.
    + replace (by_username name v) with false.
      * apply IH. intros w Hw. apply Hl1. right. exact Hw.
      * symmetry. apply String.eqb_neq. apply Hl1. left. reflexivity.
Qed.

Lemma by_username_true (username : string) (u : User.t) :
  by_username username u = true <-> User.username u = username.
Proof. apply String.eqb_eq. Qed.

(** With unique usernames, [find] returns the one user of that name. *)
Lemma find_unique (users : list User.t) (u : User.t) :
  unique_usernames users -> In u users ->
  find (by_username (User.username u)) users = Some u.
Proof.
  unfold unique_usernames.
  induction users as [| v users IH]; intros Hnd Hin; [contradiction |].
  cbn in Hnd. inversion Hnd as [| ? ? Hnotin Hnd']; subst.
  cbn [find]. destruct (by_username (User.username u) v) eqn:E.
  - destruct Hin as [-> | Hin]; [reflexivity |].
    apply by_username_true in E. exfalso. apply Hnotin.
    rewrite E. apply in_map. assumption.
  - destruct Hin as [-> | Hin]; [| auto].
    unfold by_username in E. rewrite String.eqb_refl in E. discriminate.
Qed.

Lemma find_all_false_users (users : list User.t) (name : string) :
  (forall v, In v users -> by_username name v = false) ->
  find (by_username name) users = None.
Proof.
  induction users as [| v users IH]; cbn [find]; intros H.
  - reflexivity.
  - rewrite (H v (or_introl eq_refl)). apply IH.
    intros w Hw. apply H. right. exact Hw.
Qed.

Lemma find_app_new (users : list User.t) (u : User.t) :
  find (by_username (User.username u)) users = None ->
  find (by_username (User.username u)) (users ++ [u]) = Some u.
Proof.
  induction users as [| v users IH]; cbn [find app]; intros H.
  - unfold by_username. rewrite String.eqb_refl. reflexivity.
  - destruct (by_username (User.username u) v); [discriminate | auto].
Qed.

(** Signup keeps usernames unique, and the array of the server starts
    with one user. *)
Lemma signup_unique (users : list User.t) (username password : string)
      (r : salt) :
  unique_usernames users ->
  unique_usernames (snd (signup users username password r)).
Proof.
  intros Hnd.
  destruct (signup_cases users username password r)
    as [[E _] | [[E _] | [E (_ & _ & Hnone)]]]; rewrite E; cbn [snd]; auto.
  unfold unique_usernames. rewrite map_app. cbn.
  apply NoDup_app; [assumption | repeat constructor; intros [] |].
  intros x Hx [<- | []].
  apply in_map_iff in Hx as (v & Hv & Hin).
  apply (find_none _ _ Hnone) in Hin. unfold by_username in Hin.
  rewrite Hv, String.eqb_refl in Hin. discriminate.
Qed.

Lemma signups_unique (reqs : list (string * string * salt)) :
  forall users : list User.t,
    unique_usernames users -> unique_usernames (snd (signups users reqs)).
Proof.
  induction reqs as [| [[username password] r] reqs IH]; intros users Hu.
  - exact Hu.
  - cbn [signups].
    pose proof (signup_unique users username password r Hu) as Hu1.
    destruct (signup users username password r) as [res users1].
    specialize (IH users1 Hu1).
    destruct (signups users1 reqs) as [ress users2]. exact IH.
Qed.

Lemma startup_unique (env : Env) (r : salt) :
  unique_usernames (startup_users env r).
Proof. repeat constructor. intros []. Qed.

End LoginFacts.

Lemma ref_bcrypt_spec : BcryptSpec Ref.bcrypt.
Proof.
  constructor. intros s rounds r. cbn. apply String.eqb_refl.
Qed.




(** For passwords that are strings, a login under a username that no
    user has and a login under the username of a user with a password
    that does not verify get the same answer. *)
Lemma login_failures_alike (B : Bcrypt) (users : list User.t)
      (session1 session2 : Session.t) (unknown password1 : string)
      (u : User.t) (password2 : string) :
  (forall v, In v users -> User.username v <> unknown) ->
  first_named (User.username u) users u ->
  compare password2 (User.password u) = false ->
  fst (login users session1 (JS.Str unknown) (JS.Str password1))
  = fst (login users session2 (JS.Str (User.username u)) (JS.Str password2))
  /\ fst (login users session1 (JS.Str unknown) (JS.Str password1))
     = fail 401 "Invalid credentials".
Proof.
  intros Hunknown Hfirst Hcmp. apply find_first_named in Hfirst.
  rewrite !login_cases, !has_username_Str, Hfirst, Hcmp.
  rewrite (find_all_false_users users unknown); [split; reflexivity |].
  intros v Hv. apply String.eqb_neq. auto.
Qed.

(** C4.  The code breaks the claim for a password that is no string.  On
    the server as it starts, a login without a password under a username
    that no user has is answered 401 "Invalid credentials", and the same
    login under the username of the default admin is answered 500
    "Server error": [bcrypt.compare] throws, after the user has been
    found.  The two answers differ and tell whether the username
    exists. *)
Theorem login_missing_password_leaks :
  fst (@login Ref.bcrypt (@startup_users Ref.bcrypt Ref.env "s"%char)
              Session.empty (JS.Str "mallory") JS.Undefined)
  = fail 401 "Invalid credentials"
  /\ fst (@login Ref.bcrypt (@startup_users Ref.bcrypt Ref.env "s"%char)
                 Session.empty (JS.Str "admin") JS.Undefined)
     = fail 500 "Server error"
  /\ fst (@login Ref.bcrypt (@startup_users Ref.bcrypt Ref.env "s"%char)
                 Session.empty (JS.Str "mallory") JS.Undefined)
     <> fst (@login Ref.bcrypt (@startup_users Ref.bcrypt Ref.env "s"%char)
                    Session.empty (JS.Str "admin") JS.Undefined).
Proof.
  repeat split. cbn. discriminate.
Qed.

(** ** Access policy *)

Lemma isAdmin_pass {St : Type} (session : Session.t) (next : response * St)
      (st : St) :
  truthy_userId session && truthy_isAdmin session = true ->
  isAdmin session next st = next.
Proof. unfold isAdmin. intros ->. reflexivity. Qed.

Lemma isAdmin_block {St : Type} (session : Session.t) (next : response * St)
      (st : St) :
  truthy_userId session && truthy_isAdmin session = false ->
  isAdmin session next st = (fail 403 "Admin access required", st).
Proof. unfold isAdmin. intros ->. reflexivity. Qed.

(** The sessions that the guard stops: the one nobody has logged into,
    and the one a login has bound to a user who is no admin. *)
Lemma anonymous_not_admin :
  truthy_userId Session.empty && truthy_isAdmin Session.empty = false.
Proof. reflexivity. Qed.

Lemma plain_user_not_admin (u : User.t) :
  User.isAdmin u = false ->
  truthy_userId (snd (logged_in u)) && truthy_isAdmin (snd (logged_in u))
  = false.
Proof. intros H. cbn. rewrite H. apply andb_false_r. Qed.

(** ** Category registry *)

(** C5.  For an admin, creating a category with the empty name is
    refused with status 400 and changes nothing, and creating one with a
    non-empty name answers with the new category, whose id is the size of
    the registry before the insertion plus 1, and appends it. *)
Theorem create_category_spec (S : Type) (st : state S) (session : Session.t)
        (name : string) (now : Z) :
  truthy_userId session && truthy_isAdmin session = true ->
  (name = "" ->
   create_category st session name now
   = (fail 400 "Category name required", st))
  /\ (name <> "" ->
      let c := Category.mk (Z.of_nat (List.length (categories st)) + 1)
                           name now in
      create_category st session name now
      = (mkResponse 200 (OfCategory c),
         mkState (users st) (categories st ++ [c]) (images st) (storage st))).
Proof.
  intros Hadmin. unfold create_category. rewrite isAdmin_pass by assumption.
  split.
  - intros ->. reflexivity.
  - intros Hname. destruct name; [congruence | reflexivity].
Qed.

Lemma create_category_spec_witness :
  let st := mkState (S := unit) [] [Category.mk 1 "Birds" 1700000000000] [] tt in
  create_category st Ref.admin_session "" 1700000000500
  = (fail 400 "Category name required", st)
  /\ create_category st Ref.admin_session "Trees" 1700000000500
     = (mkResponse 200 (OfCategory (Category.mk 2 "Trees" 1700000000500)),
        mkState [] [Category.mk 1 "Birds" 1700000000000;
                    Category.mk 2 "Trees" 1700000000500] [] tt).
Proof.
  intros st. split.
  - exact (proj1 (create_category_spec unit st Ref.admin_session ""
                    1700000000500 eq_refl) eq_refl).
  - refine (proj2 (create_category_spec unit st Ref.admin_session "Trees"
                     1700000000500 eq_refl) _).
    discriminate.
Defined.

(** ** Image listing *)





(** ** Deleting an image *)

Lemma findIndex_none {A : Type} (p : A -> bool) (l : list A) :
  JS.findIndex p l = None -> forall x, In x l -> p x = false.
Proof.
  induction l as [| a l IH]; cbn [JS.findIndex]; intros H x Hx.
  - contradiction.
  - destruct (p a) eqn:Hp; [discriminate |].
    destruct (JS.findIndex p l); [discriminate |].
    destruct Hx as [<- | Hx]; auto.
Qed.

Lemma findIndex_some {A : Type} (p : A -> bool) (l : list A) :
  forall i, JS.findIndex p l = Some i ->
  exists l1 x l2,
    l = l1 ++ x :: l2 /\ p x = true /\ (forall y, In y l1 -> p y = false)
    /\ nth_error l i = Some x /\ JS.splice1 i l = l1 ++ l2.
Proof.
  induction l as [| a l IH]; cbn [JS.findIndex]; intros i H.
  - discriminate.
  - destruct (p a) eqn:Hp.
    + injection H as <-. exists [], a, l. cbn. repeat split; auto.
      intros y [].
    + destruct (JS.findIndex p l) as [j |]; [| discriminate].
      injection H as <-.
      destruct (IH j eq_refl) as (l1 & x & l2 & -> & Hx & Hl1 & Hnth & Hsp).
      exists (a :: l1), x, l2. cbn. rewrite Hsp. repeat split; auto.
      intros y [<- | Hy]; auto.
Qed.

Lemma by_id_iff (K : Z) (img : Image.t) :
  by_id (JS.Num K) img = true <-> Image.id img = K.
Proof. apply Z.eqb_eq. Qed.

Lemma by_id_false (K : Z) (img : Image.t) :
  by_id (JS.Num K) img = false <-> Image.id img <> K.
Proof. apply Z.eqb_neq. Qed.

Lemma findIndex_never {A : Type} (p : A -> bool) (l : list A) :
  (forall x, p x = false) -> JS.findIndex p l = None.
Proof.
  intros Hp. induction l as [| a l IH]; cbn [JS.findIndex].
  - reflexivity.
  - rewrite Hp, IH. reflexivity.
Qed.

(** C7.  For an admin, both copies of the delete handler behave as
    [delete_outcome] says for the integer [K] that the id of the request
    reads as, and answer 404 without a change when the id reads as no
    number.  The disk copy removes the binary with [unlinkSync] and
    answers "Server error" when that throws; the Cloudinary copy removes
    it with [destroy] and answers "Failed to delete image" when that is
    rejected. *)
Theorem delete_spec (F : FileSystem) (C : Cloudinary) (session : Session.t)
        (id : string) :
  truthy_userId session && truthy_isAdmin session = true ->
  (forall st : state disk,
      match JS.parseInt id with
      | JS.Num K =>
          delete_outcome K
            (fun d img => unlinkSync d (uploads_path (Image.fileName img)))
            (fail 500 "Server error") st (Local.delete st session id)
      | JS.NaN =>
          Local.delete st session id = (fail 404 "Image not found", st)
      end)
  /\ (forall st : state cloud,
         match JS.parseInt id with
         | JS.Num K =>
             delete_outcome K
               (fun c img => destroy c (Image.cloudinaryPublicId img))
               (fail 500 "Failed to delete image") st
               (Cloud.delete st session id)
         | JS.NaN =>
             Cloud.delete st session id = (fail 404 "Image not found", st)
         end).
Proof.
  intros Hadmin. split; intros st.
  - unfold Local.delete. rewrite isAdmin_pass by assumption. cbv zeta.
    destruct (JS.parseInt id) as [| K].
    { rewrite findIndex_never; reflexivity. }
    destruct (JS.findIndex (by_id (JS.Num K)) (images st)) as [i |] eqn:E.
    + destruct (findIndex_some _ _ _ E)
        as (l1 & img & l2 & Himgs & Hid' & Hl1 & Hnth & Hsp).
      right. exists l1, img, l2. rewrite Hnth, Hsp.
      repeat split.
      * exact Himgs.
      * apply by_id_iff. exact Hid'.
      * intros y Hy. apply by_id_false. auto.
      * destruct (unlinkSync _ _); reflexivity.
    + left. split; [| reflexivity].
      intros img Hin. apply by_id_false. exact (findIndex_none _ _ E img Hin).
  - unfold Cloud.delete. rewrite isAdmin_pass by assumption. cbv zeta.
    destruct (JS.parseInt id) as [| K].
    { rewrite findIndex_never; reflexivity. }
    destruct (JS.findIndex (by_id (JS.Num K)) (images st)) as [i |] eqn:E.
    + destruct (findIndex_some _ _ _ E)
        as (l1 & img & l2 & Himgs & Hid' & Hl1 & Hnth & Hsp).
      right. exists l1, img, l2. rewrite Hnth, Hsp.
      repeat split.
      * exact Himgs.
      * apply by_id_iff. exact Hid'.
      * intros y Hy. apply by_id_false. auto.
      * destruct (destroy _ _); reflexivity.
    + left. split; [| reflexivity].
      intros img Hin. apply by_id_false. exact (findIndex_none _ _ E img Hin).
Qed.

Lemma delete_spec_witness :
  (forall st : state (@disk Ref.fs),
      delete_outcome 2
        (fun d img => @unlinkSync Ref.fs d
                        (@uploads_path Ref.fs (Image.fileName img)))
        (fail 500 "Server error") st
        (@Local.delete Ref.fs st Ref.admin_session "2"))
  /\ (forall st : state (@cloud Ref.cloudinary),
         delete_outcome 2
           (fun c img => @destroy Ref.cloudinary c
                           (Image.cloudinaryPublicId img))
           (fail 500 "Failed to delete image") st
           (@Cloud.delete Ref.cloudinary st Ref.admin_session "2")).
Proof.
  exact (delete_spec Ref.fs Ref.cloudinary Ref.admin_session "2" eq_refl).
Defined.

(** A run on the reference disk: the second of three images goes, with
    its file; a second delete of the same id finds nothing. *)
Example delete_run :
  let img (n : Z) (f : string) :=
    Image.mk n f f None None (JS.Num 1) (Some "admin") 1700000000000
             ("/uploads/" ++ f)%string in
  let st : state (@disk Ref.fs) :=
    mkState [] [] [img 1 "a.png"; img 2 "b.png"; img 3 "c.png"]
            [("/srv/gallery/uploads/a.png", "A");
             ("/srv/gallery/uploads/b.png", "B");
             ("/srv/gallery/uploads/c.png", "C")] in
  let st' : state (@disk Ref.fs) :=
    mkState [] [] [img 1 "a.png"; img 3 "c.png"]
            [("/srv/gallery/uploads/a.png", "A");
             ("/srv/gallery/uploads/c.png", "C")] in
  @Local.delete Ref.fs st Ref.admin_session "2"
  = (mkResponse 200 (Message "Image deleted successfully"), st')
  /\ @Local.delete Ref.fs st' Ref.admin_session "2"
     = (fail 404 "Image not found", st').
Proof. split; reflexivity. Qed.

(** ** Uploading an image *)

Lemma includes_iff (l : list string) (x : string) :
  JS.includes l x = true <-> In x l.
Proof.
  unfold JS.includes. rewrite existsb_exists. split.
  - intros (y & Hy & E). apply String.eqb_eq in E. subst. exact Hy.
  - intros H. exists x. split; [exact H | apply String.eqb_refl].
Qed.

Lemma includes_false (l : list string) (x : string) :
  ~ In x l -> JS.includes l x = false.
Proof.
  intros H. destruct (JS.includes l x) eqn:E; [| reflexivity].
  apply includes_iff in E. contradiction.
Qed.

(** C8.  Whatever the request, an upload either leaves the whole state as
    it was, registry and storage, and answers with an error, or it has
    stored the binary and appended one record, and answers with that
    record.  It leaves the state as it was when the MIME type of the file
    is not in the allow-list of the copy, and when the storage fails. *)
Theorem upload_all_or_nothing (F : FileSystem) (C : Cloudinary)
        (session : Session.t) (image : option UploadedFile.t)
        (categoryId : option string) (now uploadedAt : Z) :
  (forall st : state disk,
      let result := Local.upload st session image categoryId now uploadedAt in
      (forall f, image = Some f ->
                 ~ In (UploadedFile.mimetype f) Local.allowedTypes ->
                 snd result = st
                 /\ (status (fst result) = 400 \/ status (fst result) = 403))
      /\ (forall f, image = Some f ->
                    mv (storage st) f (uploads_path (Local.fileName now f))
                    = None ->
                    snd result = st /\ status (fst result) <> 200)
      /\ ((snd result = st /\ status (fst result) <> 200)
          \/ exists f d,
               image = Some f
               /\ In (UploadedFile.mimetype f) Local.allowedTypes
               /\ mv (storage st) f (uploads_path (Local.fileName now f))
                  = Some d
               /\ result
                  = (mkResponse 200
                       (OfImage (Local.newImage st session f categoryId
                                                now uploadedAt)),
                     mkState (users st) (categories st)
                             (images st
                              ++ [Local.newImage st session f categoryId
                                                 now uploadedAt]) d)))
  /\ (forall st : state cloud,
         let result := Cloud.upload st session image categoryId uploadedAt in
         (forall f, image = Some f ->
                    ~ In (UploadedFile.mimetype f) Cloud.allowedTypes ->
                    snd result = st
                    /\ (status (fst result) = 400 \/ status (fst result) = 403))
         /\ (forall f, image = Some f ->
                       upload_stream (storage st) (UploadedFile.data f) = None ->
                       snd result = st /\ status (fst result) <> 200)
         /\ ((snd result = st /\ status (fst result) <> 200)
             \/ exists f c secure_url public_id,
                  image = Some f
                  /\ In (UploadedFile.mimetype f) Cloud.allowedTypes
                  /\ upload_stream (storage st) (UploadedFile.data f)
                     = Some (c, (secure_url, public_id))
                  /\ result
                     = (mkResponse 200
                          (OfImage (Cloud.newImage st session f categoryId
                                      uploadedAt secure_url public_id)),
                        mkState (users st) (categories st)
                                (images st
                                 ++ [Cloud.newImage st session f categoryId
                                       uploadedAt secure_url public_id]) c))).
Proof.
  split; intros st result; subst result.
  - unfold Local.upload, isAdmin.
    destruct (truthy_userId session && truthy_isAdmin session).
    + split; [| split].
      * intros f -> Hnot. rewrite (includes_false _ _ Hnot). cbn. auto.
      * intros f -> Hmv.
        destruct (JS.includes _ _); cbn [negb];
          [rewrite Hmv |]; cbn; split; (reflexivity || discriminate).
      * destruct image as [f |]; [| left; cbn; split; [reflexivity | discriminate]].
        destruct (JS.includes Local.allowedTypes (UploadedFile.mimetype f))
          eqn:Hinc; cbn [negb];
          [| left; cbn; split; [reflexivity | discriminate]].
        destruct (mv (storage st) f (uploads_path (Local.fileName now f)))
          as [d |] eqn:Hmv;
          [| left; cbn; split; [reflexivity | discriminate]].
        right. exists f, d. apply includes_iff in Hinc. auto.
    + split; [| split]; cbn; intros; auto; try (split; [reflexivity | discriminate]).
      left. split; [reflexivity | discriminate].
  - unfold Cloud.upload, isAdmin.
    destruct (truthy_userId session && truthy_isAdmin session).
    + split; [| split].
      * intros f -> Hnot. rewrite (includes_false _ _ Hnot). cbn. auto.
      * intros f -> Hup.
        destruct (JS.includes _ _); cbn [negb];
          [rewrite Hup |]; cbn; split; (reflexivity || discriminate).
      * destruct image as [f |]; [| left; cbn; split; [reflexivity | discriminate]].
        destruct (JS.includes Cloud.allowedTypes (UploadedFile.mimetype f))
          eqn:Hinc; cbn [negb];
          [| left; cbn; split; [reflexivity | discriminate]].
        destruct (upload_stream (storage st) (UploadedFile.data f))
          as [[c [secure_url public_id]] |] eqn:Hup;
          [| left; cbn; split; [reflexivity | discriminate]].
        right. exists f, c, secure_url, public_id.
        apply includes_iff in Hinc. auto.
    + split; [| split]; cbn; intros; auto; try (split; [reflexivity | discriminate]).
      left. split; [reflexivity | discriminate].
Qed.

Lemma upload_all_or_nothing_witness :
  let pdf := UploadedFile.mk "notes.pdf" "application/pdf" "%PDF" in
  let st : state (@disk Ref.fs) :=
    mkState [] [Category.mk 1 "Birds" 1700000000000] [] [] in
  let result := @Local.upload Ref.fs st Ref.admin_session (Some pdf)
                              (Some "1") 1700000000000 1700000000001 in
  snd result = st
  /\ (status (fst result) = 400 \/ status (fst result) = 403).
Proof.
  intros pdf st.
  refine (proj1 (proj1 (upload_all_or_nothing Ref.fs Ref.cloudinary
                          Ref.admin_session (Some pdf) (Some "1")
                          1700000000000 1700000000001) st)
                pdf eq_refl _).
  intros [H | [H | [H | [H | []]]]]; discriminate H.
Defined.

(** A run on the reference disk: the upload of a JPEG stores the file
    under the name made of the clock and the original name, white space
    replaced, and appends the record. *)
Example upload_run :
  let st : state (@disk Ref.fs) := mkState [] [] [] [] in
  @Local.upload Ref.fs st Ref.admin_session (Some (Ref.jpeg "my cat.jpg"))
                (Some "3") 1700000000000 1700000000001
  = (mkResponse 200
       (OfImage (Image.mk 1 "1700000000000-my-cat.jpg" "my cat.jpg" None None
                          (JS.Num 3) (Some "admin") 1700000000001
                          "/uploads/1700000000000-my-cat.jpg")),
     mkState [] []
       [Image.mk 1 "1700000000000-my-cat.jpg" "my cat.jpg" None None
                 (JS.Num 3) (Some "admin") 1700000000001
                 "/uploads/1700000000000-my-cat.jpg"]
       [("/srv/gallery/uploads/1700000000000-my-cat.jpg", "JFIF")]).
Proof. vm_compute. reflexivity. Qed.

(** ** The guarded routes *)

(** C9.  When the session carries no user id, or its admin flag is not
    true, the category creation, the upload, the download and the delete
    of both copies answer with status 403 and leave the state as it
    was. *)
Theorem guarded_routes (F : FileSystem) (C : Cloudinary)
        (session : Session.t) :
  truthy_userId session && truthy_isAdmin session = false ->
  let forbidden := fail 403 "Admin access required" in
  status forbidden = 403
  /\ (forall (S : Type) (st : state S) (name : string) (now : Z),
         create_category st session name now = (forbidden, st))
  /\ (forall (st : state disk) image categoryId now uploadedAt,
         Local.upload st session image categoryId now uploadedAt
         = (forbidden, st))
  /\ (forall (st : state disk) id, Local.download st session id = (forbidden, st))
  /\ (forall (st : state disk) id, Local.delete st session id = (forbidden, st))
  /\ (forall (st : state cloud) image categoryId uploadedAt,
         Cloud.upload st session image categoryId uploadedAt = (forbidden, st))
  /\ (forall (st : state cloud) id, Cloud.download st session id = (forbidden, st))
  /\ (forall (st : state cloud) id, Cloud.delete st session id = (forbidden, st)).
Proof.
  intros Hguard forbidden.
  split; [reflexivity |].
  repeat split; intros;
    unfold create_category, Local.upload, Local.download, Local.delete,
      Cloud.upload, Cloud.download, Cloud.delete;
    apply isAdmin_block; assumption.
Qed.

Lemma guarded_routes_witness :
  let bob := User.mk 2 "bob" "$2a$10$" false in
  let forbidden := fail 403 "Admin access required" in
  (forall (st : state (@disk Ref.fs)) id,
      @Local.delete Ref.fs st Session.empty id = (forbidden, st))
  /\ (forall (st : state (@cloud Ref.cloudinary)) image categoryId uploadedAt,
         @Cloud.upload Ref.cloudinary st (snd (logged_in bob)) image
                       categoryId uploadedAt
         = (forbidden, st)).
Proof.
  intros bob forbidden. split.
  - exact (proj1 (proj2 (proj2 (proj2 (proj2
             (guarded_routes Ref.fs Ref.cloudinary Session.empty
                             eq_refl)))))).
  - exact (proj1 (proj2 (proj2 (proj2 (proj2 (proj2
             (guarded_routes Ref.fs Ref.cloudinary (snd (logged_in bob))
                             eq_refl))))))).
Defined.

(** ** Uploads without a category *)

Lemma strict_eq_NaN (n : JS.number) : JS.strict_eq JS.NaN n = false.
Proof. reflexivity. Qed.

Lemma filtered_not_NaN (imgs : list Image.t) (q : string) (img : Image.t) :
  JS.truthy_string q = true ->
  Image.categoryId img = JS.NaN ->
  ~ In img (filter_images imgs (Some q)).
Proof.
  intros Hq Hnan Hin. unfold filter_images in Hin. cbn in Hin.
  rewrite Hq in Hin. apply filter_In in Hin as [_ Heq].
  rewrite Hnan in Heq. discriminate.
Qed.

(** C10, as the code has it.  The category of the record is what
    [parseInt] makes of the field.  When the field is absent, or is a
    string that [parseInt] reads as NaN (no digit follows its leading
    white space and sign), an admin upload of an allowed file that the
    storage accepts succeeds and appends a record whose [categoryId] is
    NaN; the listing without a filter returns the record, and no listing
    with a filter does. *)
Theorem upload_without_category (F : FileSystem) (C : Cloudinary)
        (session : Session.t) (f : UploadedFile.t)
        (categoryId : option string) (now uploadedAt : Z) :
  truthy_userId session && truthy_isAdmin session = true ->
  JS.parseInt_field categoryId = JS.NaN ->
  JS.parseInt_field None = JS.NaN
  /\ (forall (st : state disk) (d : disk),
         In (UploadedFile.mimetype f) Local.allowedTypes ->
         mv (storage st) f (uploads_path (Local.fileName now f)) = Some d ->
         let img := Local.newImage st session f categoryId now uploadedAt in
         let result :=
           Local.upload st session (Some f) categoryId now uploadedAt in
         fst result = mkResponse 200 (OfImage img)
         /\ images (snd result) = images st ++ [img]
         /\ Image.categoryId img = JS.NaN
         /\ In img (filter_images (images (snd result)) None)
         /\ (forall q, JS.truthy_string q = true ->
                       ~ In img (filter_images (images (snd result))
                                               (Some q))))
  /\ (forall (st : state cloud) (c : cloud) (secure_url public_id : string),
         In (UploadedFile.mimetype f) Cloud.allowedTypes ->
         upload_stream (storage st) (UploadedFile.data f)
         = Some (c, (secure_url, public_id)) ->
         let img := Cloud.newImage st session f categoryId uploadedAt
                                   secure_url public_id in
         let result := Cloud.upload st session (Some f) categoryId uploadedAt in
         fst result = mkResponse 200 (OfImage img)
         /\ images (snd result) = images st ++ [img]
         /\ Image.categoryId img = JS.NaN
         /\ In img (filter_images (images (snd result)) None)
         /\ (forall q, JS.truthy_string q = true ->
                       ~ In img (filter_images (images (snd result))
                                               (Some q)))).
Proof.
  intros Hadmin Hnan. split; [reflexivity | split].
  - intros st d Hallowed Hmv img result. subst result.
    unfold Local.upload. rewrite isAdmin_pass by assumption.
    apply includes_iff in Hallowed. rewrite Hallowed. cbn [negb].
    rewrite Hmv. cbn [fst snd images set_images json].
    repeat split.
    + exact Hnan.
    + cbn. apply in_or_app. right. left. reflexivity.
    + intros q Hq. apply filtered_not_NaN; assumption.
  - intros st c secure_url public_id Hallowed Hup img result. subst result.
    unfold Cloud.upload. rewrite isAdmin_pass by assumption.
    apply includes_iff in Hallowed. rewrite Hallowed. cbn [negb].
    rewrite Hup. cbn [fst snd images set_images json].
    repeat split.
    + exact Hnan.
    + cbn. apply in_or_app. right. left. reflexivity.
    + intros q Hq. apply filtered_not_NaN; assumption.
Qed.

Lemma upload_without_category_witness :
  let st : state (@disk Ref.fs) := mkState [] [] [] [] in
  let img := @Local.newImage Ref.fs st Ref.admin_session (Ref.jpeg "cat.jpg")
                             None 1700000000000 1700000000001 in
  let result := @Local.upload Ref.fs st Ref.admin_session
                              (Some (Ref.jpeg "cat.jpg")) None
                              1700000000000 1700000000001 in
  fst result = mkResponse 200 (OfImage img)
  /\ images (snd result) = images st ++ [img]
  /\ Image.categoryId img = JS.NaN
  /\ In img (filter_images (images (snd result)) None)
  /\ (forall q, JS.truthy_string q = true ->
                ~ In img (filter_images (images (snd result)) (Some q))).
Proof.
  intros st.
  refine (proj1 (proj2 (upload_without_category Ref.fs Ref.cloudinary
                          Ref.admin_session (Ref.jpeg "cat.jpg") None
                          1700000000000 1700000000001 eq_refl eq_refl))
                st _ _ eq_refl).
  left. reflexivity.
Defined.

(** C10, as it is stated, fails for a field that starts with digits and
    goes on with something else: "12abc" is no numeric string, yet the
    record gets the category 12 and the listing filtered on 12 returns
    it. *)
Lemma upload_12abc_has_category :
  let st : state (@disk Ref.fs) := mkState [] [] [] [] in
  let result := @Local.upload Ref.fs st Ref.admin_session
                              (Some (Ref.jpeg "cat.jpg")) (Some "12abc")
                              1700000000000 1700000000001 in
  numeric_string "12abc" = false
  /\ exists img,
       fst result = mkResponse 200 (OfImage img)
       /\ images (snd result) = [img]
       /\ Image.categoryId img = JS.Num 12
       /\ Image.categoryId img <> JS.NaN
       /\ filter_images (images (snd result)) (Some "12") = [img].
Proof.
  intros st result. split; [reflexivity |].
  eexists. vm_compute. repeat split. discriminate.
Qed.

(** * Further properties of the handlers *)

(** ** The user array of the server *)

Lemma sequential_nil {A : Type} (id : A -> Z) : sequential id [].
Proof. intros [| i] x H; discriminate H. Qed.

Lemma sequential_snoc {A : Type} (id : A -> Z) (l : list A) (x : A) :
  sequential id l -> id x = Z.of_nat (List.length l) + 1 ->
  sequential id (l ++ [x]).
Proof.
  intros Hl Hx i y Hy.
  destruct (Nat.lt_ge_cases i (List.length l)) as [Hlt | Hge].
  - rewrite nth_error_app1 in Hy by assumption. auto.
  - rewrite nth_error_app2 in Hy by assumption.
    destruct (i - List.length l)%nat as [| k] eqn:E.
    + cbn in Hy. injection Hy as <-. rewrite Hx. f_equal. lia.
    + destruct k; discriminate Hy.
Qed.

Lemma sequential_injective {A : Type} (id : A -> Z) (l : list A)
      (i j : nat) (x y : A) :
  sequential id l -> nth_error l i = Some x -> nth_error l j = Some y ->
  id x = id y -> i = j.
Proof.
  intros Hl Hx Hy E. apply Hl in Hx. apply Hl in Hy. lia.
Qed.

Lemma sequential_bound {A : Type} (id : A -> Z) (l : list A) (x : A) :
  sequential id l -> In x l -> 1 <= id x <= Z.of_nat (List.length l).
Proof.
  intros Hl Hin. apply In_nth_error in Hin as (i & Hi).
  pose proof (proj1 (nth_error_Some l i) ltac:(congruence)) as Hlt.
  rewrite (Hl i x Hi). lia.
Qed.

Section UserArrayFacts.
Context {B : Bcrypt}.

(** A property of the user array that one signup keeps is kept by a run
    of signups. *)
Lemma signups_keep (P : list User.t -> Prop) :
  (forall users username password r,
      P users -> P (snd (signup users username password r))) ->
  forall reqs users, P users -> P (snd (signups users reqs)).
Proof.
  intros Hstep.
  induction reqs as [| [[username password] r] reqs IH]; intros users Hu.
  - exact Hu.
  - cbn [signups].
    pose proof (Hstep users username password r Hu) as Hu1.
    destruct (signup users username password r) as [res users1].
    specialize (IH users1 Hu1).
    destruct (signups users1 reqs) as [ress users2]. exact IH.
Qed.

Lemma signup_keeps_names (users : list User.t) (username password : string)
      (r : salt) :
  (forall u, In u users -> User.username u <> "") ->
  forall u, In u (snd (signup users username password r)) ->
            User.username u <> "".
Proof.
  intros Hu u.
  destruct (signup_cases users username password r)
    as [[E _] | [[E _] | [E (Hname & _)]]]; rewrite E; cbn [snd]; auto.
  intros Hin. apply in_app_or in Hin as [Hin | [<- | []]]; auto.
Qed.

Lemma signup_keeps_ids (users : list User.t) (username password : string)
      (r : salt) :
  sequential User.id users ->
  sequential User.id (snd (signup users username password r)).
Proof.
  intros Hu.
  destruct (signup_cases users username password r)
    as [[E _] | [[E _] | [E _]]]; rewrite E; cbn [snd]; auto.
  apply sequential_snoc; [assumption | reflexivity].
Qed.

Lemma none_is_admin_Forall (us : list User.t) :
  none_is_admin (stored_flags us) ->
  Forall (fun u => User.isAdmin u = false) us.
Proof.
  unfold none_is_admin, stored_flags. induction us as [| u us IH]; cbn.
  - constructor.
  - intros H. inversion H as [| ? ? Hu Hus]; subst.
    constructor; [congruence | auto].
Qed.

Lemma server_users_shape (env : Env) (r : salt)
      (reqs : list (string * string * salt)) :
  exists rest,
    server_users env r reqs = default_admin env r :: rest
    /\ Forall (fun u => User.isAdmin u = false) rest.
Proof.
  unfold server_users.
  destruct (signups_created reqs (startup_users env r))
    as (created & Hus & _ & Hnone & _).
  exists created. split; [exact Hus |].
  apply none_is_admin_Forall, Hnone. discriminate.
Qed.

Lemma or_default_truthy (v : option string) (d : string) :
  d <> "" -> or_default v d <> "".
Proof.
  intros Hd. unfold or_default. destruct v as [[| c s] |]; cbn; auto.
  discriminate.
Qed.

End UserArrayFacts.

Lemma Forall_snoc {A : Type} (P : A -> Prop) (l : list A) (x : A) :
  Forall P l -> P x -> Forall P (l ++ [x]).
Proof. intros Hl Hx. apply Forall_app. auto. Qed.

Lemma Forall_splice1 {A : Type} (P : A -> Prop) (l : list A) :
  forall i, Forall P l -> Forall P (JS.splice1 i l).
Proof.
  induction l as [| a l IH]; intros i H; [destruct i; constructor |].
  inversion H as [| ? ? Ha Hl]; subst.
  destruct i as [| i]; cbn [JS.splice1]; [exact Hl |].
  constructor; auto.
Qed.

Section OverlappingSignups.
Context {B : Bcrypt}.

Lemma signup_phases (users : list User.t) (username password : string)
      (r : salt) :
  signup users username password r
  = match signup_begin users username password with
    | Some res => (res, users)
    | None => signup_finish users username password r
    end.
Proof.
  unfold signup, signup_begin, signup_finish.
  destruct (negb (JS.truthy_string username)
            || negb (JS.truthy_string password)); [reflexivity |].
  destruct (find (by_username username) users); reflexivity.
Qed.

Lemma signup_begin_waits (users : list User.t) (username password : string) :
  signup_begin users username password = None ->
  username <> "" /\ find (by_username username) users = None.
Proof.
  unfold signup_begin. destruct username as [| c username'].
  - discriminate.
  - destruct (negb (JS.truthy_string (String c username'))
              || negb (JS.truthy_string password)); [discriminate |].
    destruct (find _ users); [discriminate |].
    intros _. split; [discriminate | reflexivity].
Qed.

Lemma signup_finish_well_formed (env : Env) (r0 : salt) (users : list User.t)
      (username password : string) (r : salt) :
  username <> "" ->
  well_formed_users env r0 users ->
  well_formed_users env r0 (snd (signup_finish users username password r)).
Proof.
  intros Hname (Hnames & Hids & rest & Hus & Hrest).
  cbn [signup_finish snd]. repeat split.
  - intros u Hu. apply in_app_or in Hu as [Hu | [<- | []]]; auto.
  - apply sequential_snoc; [assumption | reflexivity].
  - eexists. split; [rewrite Hus at 1; reflexivity |].
    apply Forall_snoc; [assumption |].
    rewrite Hus. reflexivity.
Qed.

Lemma signup_events_well_formed (env : Env) (r0 : salt)
      (evs : list signup_event) :
  forall (users : list User.t) (waiting : list (string * string * salt)),
    well_formed_users env r0 users ->
    Forall (fun w => fst (fst w) <> "") waiting ->
    well_formed_users env r0 (signup_events users waiting evs).
Proof.
  induction evs as [| [username password r | i] evs IH];
    intros users waiting Hu Hw; cbn [signup_events].
  - exact Hu.
  - destruct (signup_begin users username password) eqn:E; [auto |].
    apply IH; [exact Hu |].
    apply Forall_snoc; [exact Hw |].
    exact (proj1 (signup_begin_waits _ _ _ E)).
  - destruct (nth_error waiting i) as [[[username password] r] |] eqn:E;
      [| auto].
    apply IH.
    + apply signup_finish_well_formed; [| exact Hu].
      rewrite Forall_forall in Hw.
      exact (Hw _ (nth_error_In _ _ E)).
    + apply Forall_splice1. exact Hw.
Qed.

Lemma signups_one_at_a_time (reqs : list (string * string * salt)) :
  forall users : list User.t,
    snd (signups users reqs) = signup_events users [] (one_at_a_time reqs).
Proof.
  induction reqs as [| [[username password] r] reqs IH]; intros users.
  - reflexivity.
  - cbn [signups one_at_a_time flat_map app signup_events].
    rewrite signup_phases.
    destruct (signup_begin users username password) as [res |].
    + cbn [nth_error]. rewrite <- IH.
      destruct (signups users reqs). reflexivity.
    + cbn [app nth_error JS.splice1]. rewrite <- IH.
      destruct (signup_finish users username password r) as [res users1].
      cbn [snd]. destruct (signups users1 reqs). reflexivity.
Qed.

Lemma signup_events_extend (evs : list signup_event) :
  forall (users : list User.t) (waiting : list (string * string * salt)),
  exists created, signup_events users waiting evs = users ++ created.
Proof.
  induction evs as [| [username password r | i] evs IH];
    intros users waiting; cbn [signup_events].
  - exists []. symmetry. apply app_nil_r.
  - destruct (signup_begin users username password); apply IH.
  - destruct (nth_error waiting i) as [[[username password] r] |];
      [| apply IH].
    cbn [signup_finish snd].
    destruct (IH (users ++ [User.mk (Z.of_nat (List.length users) + 1)
                                    username (hash password 10 r)
                                    (Z.of_nat (List.length users) =? 0)])
                 (JS.splice1 i waiting)) as (created & ->).
    eexists. rewrite <- app_assoc. reflexivity.
Qed.

Lemma startup_well_formed (env : Env) (r : salt) :
  well_formed_users env r (startup_users env r).
Proof.
  repeat split.
  - intros u [<- | []]. cbn. apply or_default_truthy. discriminate.
  - apply (sequential_snoc User.id [] _ (sequential_nil _)). reflexivity.
  - exists []. split; [reflexivity | constructor].
Qed.

End OverlappingSignups.

(** X1.  Whatever the environment and the salts, and however signups
    overlap (the duplicate test of one and its push may be separated by
    the steps of others), the user array of the server has no empty
    username, its ids count up from 1 in the order of the array, and it
    starts with the default admin, who is its only admin.  When each
    signup finishes before the next one begins, which is one such run,
    no username occurs twice either.  The signups are those that arrive
    once the default admin has been pushed. *)
Theorem server_users_invariant (B : Bcrypt) (env : Env) (r : salt) :
  (forall evs : list signup_event,
      well_formed_users env r (signup_events (startup_users env r) [] evs))
  /\ (forall reqs : list (string * string * salt),
         server_users env r reqs
         = signup_events (startup_users env r) [] (one_at_a_time reqs)
         /\ unique_usernames (server_users env r reqs)).
Proof.
  split.
  - intros evs. apply signup_events_well_formed.
    + apply startup_well_formed.
    + constructor.
  - intros reqs. split.
    + apply signups_one_at_a_time.
    + apply signups_unique, startup_unique.
Qed.

Lemma server_users_invariant_witness :
  well_formed_users (B := Ref.bcrypt) Ref.env "s"%char
    (@signup_events Ref.bcrypt
       (@startup_users Ref.bcrypt Ref.env "s"%char) []
       [@Begin Ref.bcrypt "carol" "first" "t"%char;
        @Begin Ref.bcrypt "carol" "second" "u"%char;
        @Finish Ref.bcrypt 1; @Finish Ref.bcrypt 0])
  /\ map User.username
         (@signup_events Ref.bcrypt
            (@startup_users Ref.bcrypt Ref.env "s"%char) []
            [@Begin Ref.bcrypt "carol" "first" "t"%char;
             @Begin Ref.bcrypt "carol" "second" "u"%char;
             @Finish Ref.bcrypt 1; @Finish Ref.bcrypt 0])
     = ["admin"; "carol"; "carol"].
Proof.
  split; [| reflexivity].
  exact (proj1 (server_users_invariant Ref.bcrypt Ref.env "s"%char)
               [@Begin Ref.bcrypt "carol" "first" "t"%char;
                @Begin Ref.bcrypt "carol" "second" "u"%char;
                @Finish Ref.bcrypt 1; @Finish Ref.bcrypt 0]).
Defined.

Lemma find_app_l {A : Type} (p : A -> bool) (l1 l2 : list A) (x : A) :
  find p l1 = Some x -> find p (l1 ++ l2) = Some x.
Proof.
  induction l1 as [| a l1 IH]; cbn [find app]; intros H.
  - discriminate.
  - destruct (p a); auto.
Qed.

Lemma signups_extend {B : Bcrypt} (reqs : list (string * string * salt))
      (users : list User.t) :
  exists created, snd (signups users reqs) = users ++ created.
Proof.
  destruct (signups_created reqs users) as (created & H & _). eauto.
Qed.

(** X2.  On the server, after any signups, a login with the username and
    the password of the default admin (those of the environment, or
    "admin" and "admin123") succeeds for the default admin, and the
    session it leaves passes the admin guard; the session that a login
    leaves for any other user of the array does not pass it. *)
Theorem default_admin_login (B : Bcrypt) (Spec : BcryptSpec B) (env : Env)
        (r : salt) (reqs : list (string * string * salt))
        (session : Session.t) :
  login (server_users env r reqs) session
        (JS.Str (or_default (ADMIN_USERNAME env) "admin"))
        (JS.Str (or_default (ADMIN_PASSWORD env) "admin123"))
  = logged_in (default_admin env r)
  /\ truthy_userId (snd (logged_in (default_admin env r)))
     && truthy_isAdmin (snd (logged_in (default_admin env r))) = true
  /\ (forall u, In u (server_users env r reqs) -> u <> default_admin env r ->
                truthy_userId (snd (logged_in u))
                && truthy_isAdmin (snd (logged_in u)) = false).
Proof.
  destruct (server_users_shape env r reqs) as (rest & Hus & Hrest).
  rewrite Hus. split; [| split].
  - rewrite login_cases, has_username_Str. unfold default_admin at 1.
    cbn [find]. unfold by_username at 1. cbn [User.username User.password].
    rewrite String.eqb_refl. cbn [User.password].
    rewrite compare_hash. reflexivity.
  - reflexivity.
  - intros u [<- | Hin] Hne; [congruence |].
    rewrite Forall_forall in Hrest.
    apply plain_user_not_admin, Hrest, Hin.
Qed.

Lemma default_admin_login_witness :
  @login Ref.bcrypt
         (@server_users Ref.bcrypt Ref.env "s"%char
                        [("bob", "hunter2", "t"%char)])
         Session.empty (JS.Str "admin") (JS.Str "admin123")
  = logged_in (@default_admin Ref.bcrypt Ref.env "s"%char).
Proof.
  exact (proj1 (default_admin_login Ref.bcrypt ref_bcrypt_spec Ref.env
                  "s"%char [("bob", "hunter2", "t"%char)] Session.empty)).
Defined.

(** X3.  A username that a signup has taken stays taken: after the
    successful signup and any further signups, a signup under the same
    username is refused with status 400 and changes nothing, with
    "Username already exists" for a non-empty password. *)
Theorem username_stays_taken (B : Bcrypt) (users : list User.t)
        (username password password' : string) (r r' : salt)
        (reqs : list (string * string * salt)) :
  status (fst (signup users username password r)) = 200 ->
  let later := snd (signups (snd (signup users username password r)) reqs) in
  signup later username password' r'
  = (fail 400 (if JS.truthy_string password'
               then "Username already exists"
               else "Username and password required"),
     later).
Proof.
  intros Hok later.
  destruct (signup_cases users username password r)
    as [[E _] | [[E _] | [E (Hname & _ & Hnone)]]];
    rewrite E in Hok; try discriminate Hok.
  assert (exists u, find (by_username username) later = Some u) as (u & Hu).
  { subst later. rewrite E. cbn [snd].
    destruct (signups_extend reqs
                (users ++ [User.mk (Z.of_nat (List.length users) + 1)
                                   username (hash password 10 r)
                                   (Z.of_nat (List.length users) =? 0)]))
      as (created & ->).
    eexists. apply find_app_l.
    exact (find_app_new users (User.mk _ username _ _) Hnone). }
  destruct (signup_cases later username password' r')
    as [[E' [-> | ->]] | [[E' (_ & Hp & _)] | [E' (_ & _ & Hnone')]]].
  - congruence.
  - exact E'.
  - rewrite E'. destruct password'; [congruence | reflexivity].
  - congruence.
Qed.

Lemma username_stays_taken_witness :
  let later :=
    snd (@signups Ref.bcrypt
           (snd (@signup Ref.bcrypt
                         (@startup_users Ref.bcrypt Ref.env "s"%char)
                         "bob" "hunter2" "t"%char))
           [("eve", "apple", "u"%char)]) in
  @signup Ref.bcrypt later "bob" "again" "v"%char
  = (fail 400 "Username already exists", later).
Proof.
  exact (username_stays_taken Ref.bcrypt
           (@startup_users Ref.bcrypt Ref.env "s"%char)
           "bob" "hunter2" "again" "t"%char "v"%char
           [("eve", "apple", "u"%char)] eq_refl).
Defined.

(** X4.  An account keeps working.  When a signup pushes its user and
    no user of the array has that username at that moment, then from
    there on, whatever signups begin and finish, a login under that
    username with the plain text of the signup succeeds for that user; a
    login with another string succeeds exactly when [bcrypt.compare]
    accepts it for the stored hash, and a login with a password that is
    no string is answered 500 and leaves the session as it was. *)
Theorem login_survives_signups (B : Bcrypt) (Spec : BcryptSpec B)
        (users : list User.t) (name plain : string) (r : salt)
        (waiting : list (string * string * salt))
        (evs : list signup_event) (session : Session.t) :
  (forall v, In v users -> User.username v <> name) ->
  let later :=
    signup_events (snd (signup_finish users name plain r)) waiting evs in
  login later session (JS.Str name) (JS.Str plain)
  = logged_in (new_user users name plain r)
  /\ (forall plain' : string,
         status (fst (login later session (JS.Str name) (JS.Str plain')))
         = 200
         <-> compare plain' (hash plain 10 r) = true)
  /\ (forall password : JS.value,
         (forall p, password <> JS.Str p) ->
         login later session (JS.Str name) password = server_error session).
Proof.
  intros Hfresh later.
  assert (find (by_username name) later
          = Some (new_user users name plain r)) as Hfind.
  { subst later. cbn [signup_finish snd].
    destruct (signup_events_extend evs
                (users ++ [User.mk (Z.of_nat (List.length users) + 1)
                                   name (hash plain 10 r)
                                   (Z.of_nat (List.length users) =? 0)])
                waiting) as (created & ->).
    apply find_app_l.
    apply (find_app_new users (new_user users name plain r)).
    apply find_all_false_users. intros v Hv.
    apply String.eqb_neq. auto. }
  split; [| split].
  - rewrite login_cases, has_username_Str, Hfind.
    unfold new_user at 1. cbn [User.password].
    rewrite compare_hash. reflexivity.
  - intros plain'. rewrite login_cases, has_username_Str, Hfind.
    unfold new_user at 1. cbn [User.password].
    destruct (compare plain' (hash plain 10 r)).
    + split; reflexivity.
    + split; [cbn |]; discriminate.
  - intros password Hp. rewrite login_cases, has_username_Str, Hfind.
    destruct password as [| | b | n | p |]; try reflexivity.
    elim (Hp p eq_refl).
Qed.

Lemma login_survives_signups_witness :
  let later :=
    @signup_events Ref.bcrypt
      (snd (@signup_finish Ref.bcrypt
                           (@startup_users Ref.bcrypt Ref.env "s"%char)
                           "bob" "hunter2" "t"%char))
      [("bob", "other", "u"%char)]
      [@Begin Ref.bcrypt "eve" "apple" "v"%char; @Finish Ref.bcrypt 0;
       @Finish Ref.bcrypt 0] in
  @login Ref.bcrypt later Session.empty (JS.Str "bob") (JS.Str "hunter2")
  = logged_in (User.mk 2 "bob" (String "t"%char "hunter2") false).
Proof.
  refine (proj1 (login_survives_signups Ref.bcrypt ref_bcrypt_spec
                   (@startup_users Ref.bcrypt Ref.env "s"%char)
                   "bob" "hunter2" "t"%char [("bob", "other", "u"%char)]
                   [@Begin Ref.bcrypt "eve" "apple" "v"%char;
                    @Finish Ref.bcrypt 0; @Finish Ref.bcrypt 0]
                   Session.empty _)).
  intros v [<- | []]. discriminate.
Defined.

(** ** Sessions *)

(** X5.  When no user of the array has the id 0, a successful login
    leaves a session that belongs to a user of that username: check-auth
    reports it as authenticated with the username and the admin flag of
    that user, the guard [isAuthenticated] lets it through, and the guard
    [isAdmin] lets it through exactly when that user is an admin. *)
Theorem login_then_check_auth (B : Bcrypt) (users : list User.t)
        (session : Session.t) (username password : JS.value) :
  (forall u, In u users -> User.id u <> 0) ->
  status (fst (login users session username password)) = 200 ->
  let session' := snd (login users session username password) in
  exists u,
    In u users /\ username = JS.Str (User.username u)
    /\ check_auth session'
       = json (AuthStatus true (Some (User.isAdmin u))
                          (Some (User.username u)))
    /\ (forall (St : Type) (next : response * St) (st : St),
           isAuthenticated session' next st = next)
    /\ (forall (St : Type) (next : response * St) (st : St),
           isAdmin session' next st
           = if User.isAdmin u then next
             else (fail 403 "Admin access required", st)).
Proof.
  intros Hids Hok session'. subst session'.
  rewrite login_cases in Hok |- *.
  destruct (find (has_username username) users) as [u |] eqn:E;
    [| discriminate Hok].
  destruct password as [| | b | n | plain |]; try discriminate Hok.
  destruct (compare plain (User.password u)); [| discriminate Hok].
  destruct username as [| | b | n | name |];
    try (rewrite find_no_string in E by discriminate; discriminate E).
  rewrite has_username_Str in E.
  apply find_some in E as [Hin Hname]. apply by_username_true in Hname.
  pose proof (Hids u Hin) as Hid. apply Z.eqb_neq in Hid.
  exists u. unfold check_auth, isAuthenticated, isAdmin, truthy_userId,
              truthy_isAdmin.
  cbn [snd logged_in Session.userId Session.isAdmin Session.username].
  rewrite Hid, Hname. cbn [negb andb]. repeat split; auto.
Qed.

Lemma login_then_check_auth_witness :
  let session' :=
    snd (@login Ref.bcrypt (@startup_users Ref.bcrypt Ref.env "s"%char)
                Session.empty (JS.Str "admin") (JS.Str "admin123")) in
  exists u,
    In u (@startup_users Ref.bcrypt Ref.env "s"%char)
    /\ JS.Str "admin" = JS.Str (User.username u)
    /\ check_auth session'
       = json (AuthStatus true (Some (User.isAdmin u))
                          (Some (User.username u)))
    /\ (forall (St : Type) (next : response * St) (st : St),
           isAuthenticated session' next st = next)
    /\ (forall (St : Type) (next : response * St) (st : St),
           isAdmin session' next st
           = if User.isAdmin u then next
             else (fail 403 "Admin access required", st)).
Proof.
  refine (login_then_check_auth Ref.bcrypt
            (@startup_users Ref.bcrypt Ref.env "s"%char)
            Session.empty (JS.Str "admin") (JS.Str "admin123") _ eq_refl).
  intros u [<- | []]. discriminate.
Defined.

(** X6.  A logout ends the session, whoever held it: it answers 200,
    check-auth then reports the session as not authenticated, the guard
    [isAuthenticated] answers 401 and the guard [isAdmin] answers 403,
    without running the handler behind them. *)
Theorem logout_ends_session (session : Session.t) :
  let session' := snd (logout session) in
  status (fst (logout session)) = 200
  /\ check_auth session' = json (AuthStatus false None None)
  /\ (forall (St : Type) (next : response * St) (st : St),
         isAuthenticated session' next st
         = (fail 401 "Not authenticated", st))
  /\ (forall (St : Type) (next : response * St) (st : St),
         isAdmin session' next st = (fail 403 "Admin access required", st)).
Proof. repeat split. Qed.

(** ** Category registry *)

(** X7.  Creating a category keeps what is there and keeps the ids
    counting up from 1: the registry afterwards is the one before, or the
    one before with one category appended, and when the ids counted up
    from 1 before they do so afterwards; users, images and storage are
    not touched.  This holds for every session and every name. *)
Theorem create_category_keeps_ids (S : Type) (st : state S)
        (session : Session.t) (name : string) (now : Z) :
  let st' := snd (create_category st session name now) in
  (categories st' = categories st
   \/ exists c, categories st' = categories st ++ [c]
                /\ Category.name c = name /\ Category.createdAt c = now)
  /\ (sequential Category.id (categories st) ->
      sequential Category.id (categories st'))
  /\ users st' = users st /\ images st' = images st
  /\ storage st' = storage st.
Proof.
  unfold create_category, isAdmin.
  destruct (truthy_userId session && truthy_isAdmin session);
    [destruct (JS.truthy_string name) |]; cbn; repeat split; auto.
  - right. eexists. repeat split.
  - intros H. apply sequential_snoc; [assumption | reflexivity].
Qed.

Lemma create_category_keeps_ids_witness :
  let st := mkState (S := unit) [] [Category.mk 1 "Birds" 1700000000000] [] tt in
  sequential Category.id
    (categories (snd (create_category st Ref.admin_session "Trees"
                                      1700000000500))).
Proof.
  intros st.
  refine (proj1 (proj2 (create_category_keeps_ids unit st Ref.admin_session
                          "Trees" 1700000000500)) _).
  apply (sequential_snoc Category.id [] _ (sequential_nil _)). reflexivity.
Defined.

(** ** Image registry *)

Lemma find_split {A : Type} (p : A -> bool) (l : list A) (x : A) :
  find p l = Some x ->
  exists l1 l2,
    l = l1 ++ x :: l2 /\ p x = true /\ (forall y, In y l1 -> p y = false).
Proof.
  induction l as [| a l IH]; cbn [find]; intros H.
  - discriminate.
  - destruct (p a) eqn:Hp.
    + injection H as <-. exists [], l. repeat split; auto. intros y [].
    + destruct (IH H) as (l1 & l2 & -> & Hx & Hl1).
      exists (a :: l1), l2. repeat split; auto.
      intros y [<- | Hy]; auto.
Qed.

Lemma findIndex_all_false {A : Type} (p : A -> bool) (l : list A) :
  (forall y, In y l -> p y = false) -> JS.findIndex p l = None.
Proof.
  induction l as [| a l IH]; cbn [JS.findIndex]; intros H.
  - reflexivity.
  - rewrite (H a (or_introl eq_refl)), IH; [reflexivity |].
    intros y Hy. apply H. right. exact Hy.
Qed.

Lemma find_all_false {A : Type} (p : A -> bool) (l : list A) :
  (forall y, In y l -> p y = false) -> find p l = None.
Proof.
  induction l as [| a l IH]; cbn [find]; intros H.
  - reflexivity.
  - rewrite (H a (or_introl eq_refl)). apply IH.
    intros y Hy. apply H. right. exact Hy.
Qed.

Lemma find_snoc_new {A : Type} (p : A -> bool) (l : list A) (x : A) :
  (forall y, In y l -> p y = false) -> p x = true ->
  find p (l ++ [x]) = Some x.
Proof.
  induction l as [| a l IH]; cbn [find app]; intros H Hx.
  - rewrite Hx. reflexivity.
  - rewrite (H a (or_introl eq_refl)). apply IH; [| exact Hx].
    intros y Hy. apply H. right. exact Hy.
Qed.

Lemma findIndex_snoc_new {A : Type} (p : A -> bool) (l : list A) (x : A) :
  (forall y, In y l -> p y = false) -> p x = true ->
  JS.findIndex p (l ++ [x]) = Some (List.length l)
  /\ nth_error (l ++ [x]) (List.length l) = Some x
  /\ JS.splice1 (List.length l) (l ++ [x]) = l.
Proof.
  induction l as [| a l IH]; cbn [JS.findIndex app List.length]; intros H Hx.
  - rewrite Hx. repeat split.
  - rewrite (H a (or_introl eq_refl)).
    destruct IH as (E1 & E2 & E3); [| exact Hx |].
    { intros y Hy. apply H. right. exact Hy. }
    rewrite E1. cbn. rewrite E3. repeat split. exact E2.
Qed.

(** What a successful upload and a successful delete have done. *)
Lemma local_upload_image {F : FileSystem} (st st1 : state disk)
      (session : Session.t) (image : option UploadedFile.t)
      (categoryId : option string) (now uploadedAt : Z) (img : Image.t) :
  Local.upload st session image categoryId now uploadedAt
  = (mkResponse 200 (OfImage img), st1) ->
  exists f d,
    image = Some f
    /\ truthy_userId session && truthy_isAdmin session = true
    /\ mv (storage st) f (uploads_path (Local.fileName now f)) = Some d
    /\ img = Local.newImage st session f categoryId now uploadedAt
    /\ st1 = mkState (users st) (categories st) (images st ++ [img]) d.
Proof.
  unfold Local.upload, isAdmin.
  destruct (truthy_userId session && truthy_isAdmin session);
    [| discriminate].
  destruct image as [f |]; [| discriminate].
  destruct (JS.includes _ _); cbn [negb]; [| discriminate].
  destruct (mv _ _ _) as [d |] eqn:Hmv; [| discriminate].
  intros H. injection H as <- <-. exists f, d. auto.
Qed.

Lemma cloud_upload_image {C : Cloudinary} (st st1 : state cloud)
      (session : Session.t) (image : option UploadedFile.t)
      (categoryId : option string) (uploadedAt : Z) (img : Image.t) :
  Cloud.upload st session image categoryId uploadedAt
  = (mkResponse 200 (OfImage img), st1) ->
  exists f c secure_url public_id,
    image = Some f
    /\ truthy_userId session && truthy_isAdmin session = true
    /\ upload_stream (storage st) (UploadedFile.data f)
       = Some (c, (secure_url, public_id))
    /\ img = Cloud.newImage st session f categoryId uploadedAt
                            secure_url public_id
    /\ st1 = mkState (users st) (categories st) (images st ++ [img]) c.
Proof.
  unfold Cloud.upload, isAdmin.
  destruct (truthy_userId session && truthy_isAdmin session);
    [| discriminate].
  destruct image as [f |]; [| discriminate].
  destruct (JS.includes _ _); cbn [negb]; [| discriminate].
  destruct (upload_stream _ _) as [[c [secure_url public_id]] |] eqn:Hup;
    [| discriminate].
  intros H. injection H as <- <-. exists f, c, secure_url, public_id. auto.
Qed.

Lemma local_delete_image {F : FileSystem} (st st1 : state disk)
      (session : Session.t) (id : string) :
  Local.delete st session id
  = (mkResponse 200 (Message "Image deleted successfully"), st1) ->
  exists l1 img l2 d,
    truthy_userId session && truthy_isAdmin session = true
    /\ images st = l1 ++ img :: l2
    /\ by_id (JS.parseInt id) img = true
    /\ (forall y, In y l1 -> by_id (JS.parseInt id) y = false)
    /\ unlinkSync (storage st) (uploads_path (Image.fileName img)) = Some d
    /\ st1 = mkState (users st) (categories st) (l1 ++ l2) d.
Proof.
  unfold Local.delete, isAdmin.
  destruct (truthy_userId session && truthy_isAdmin session);
    [| discriminate].
  cbv zeta.
  destruct (JS.findIndex _ _) as [i |] eqn:E; [| discriminate].
  destruct (findIndex_some _ _ _ E)
    as (l1 & img & l2 & Himgs & Hp & Hl1 & Hnth & Hsp).
  rewrite Hnth, Hsp.
  destruct (unlinkSync _ _) as [d |] eqn:Hun; [| discriminate].
  intros H. injection H as <-. exists l1, img, l2, d. repeat split; auto.
Qed.

Lemma cloud_delete_image {C : Cloudinary} (st st1 : state cloud)
      (session : Session.t) (id : string) :
  Cloud.delete st session id
  = (mkResponse 200 (Message "Image deleted successfully"), st1) ->
  exists l1 img l2 c,
    truthy_userId session && truthy_isAdmin session = true
    /\ images st = l1 ++ img :: l2
    /\ by_id (JS.parseInt id) img = true
    /\ (forall y, In y l1 -> by_id (JS.parseInt id) y = false)
    /\ destroy (storage st) (Image.cloudinaryPublicId img) = Some c
    /\ st1 = mkState (users st) (categories st) (l1 ++ l2) c.
Proof.
  unfold Cloud.delete, isAdmin.
  destruct (truthy_userId session && truthy_isAdmin session);
    [| discriminate].
  cbv zeta.
  destruct (JS.findIndex _ _) as [i |] eqn:E; [| discriminate].
  destruct (findIndex_some _ _ _ E)
    as (l1 & img & l2 & Himgs & Hp & Hl1 & Hnth & Hsp).
  rewrite Hnth, Hsp.
  destruct (destroy _ _) as [c |] eqn:Hun; [| discriminate].
  intros H. injection H as <-. exists l1, img, l2, c. repeat split; auto.
Qed.

(** X8.  A download never changes the state.  For an admin it answers
    404 "Image not found" when the id reads as no number or as the id of
    no image.  Otherwise it serves the first image with that id, the one
    a delete would remove: the disk copy sends the file under its path in
    the uploads directory with the original name when there is a file at
    that path, and answers 404 through the error handler when there is
    none; the Cloudinary copy redirects (302) to the URL of the image. *)
Theorem download_spec (F : FileSystem) (C : Cloudinary) (session : Session.t)
        (id : string) :
  (forall st : state disk, snd (Local.download st session id) = st)
  /\ (forall st : state cloud, snd (Cloud.download st session id) = st)
  /\ (truthy_userId session && truthy_isAdmin session = true ->
      (forall st : state disk,
          match JS.parseInt id with
          | JS.Num K =>
              download_outcome K
                (fun img =>
                   if readable (storage st)
                               (uploads_path (Image.fileName img))
                   then mkResponse 200
                          (Download (uploads_path (Image.fileName img))
                                    (Image.originalName img))
                   else mkResponse 404 ErrorPage)
                st (Local.download st session id)
          | JS.NaN =>
              Local.download st session id
              = (fail 404 "Image not found", st)
          end)
      /\ (forall st : state cloud,
             match JS.parseInt id with
             | JS.Num K =>
                 download_outcome K
                   (fun img =>
                      mkResponse 302 (Redirect (Image.cloudinaryUrl img)))
                   st (Cloud.download st session id)
             | JS.NaN =>
                 Cloud.download st session id
                 = (fail 404 "Image not found", st)
             end)).
Proof.
  split; [| split].
  - intros st. unfold Local.download, isAdmin.
    destruct (truthy_userId session && truthy_isAdmin session);
      [| reflexivity].
    cbv zeta. destruct (find _ _); [| reflexivity].
    destruct (readable _ _); reflexivity.
  - intros st. unfold Cloud.download, isAdmin.
    destruct (truthy_userId session && truthy_isAdmin session);
      [| reflexivity].
    cbv zeta. destruct (find _ _); reflexivity.
  - intros Hadmin. split; intros st.
    + unfold Local.download. rewrite isAdmin_pass by assumption. cbv zeta.
      destruct (JS.parseInt id) as [| K].
      { rewrite find_all_false; reflexivity. }
      destruct (find (by_id (JS.Num K)) (images st)) as [img |] eqn:E.
      * destruct (find_split _ _ _ E) as (l1 & l2 & Himgs & Hp & Hl1).
        right. exists l1, img, l2. repeat split.
        -- exact Himgs.
        -- apply by_id_iff. exact Hp.
        -- intros y Hy. apply by_id_false. auto.
        -- destruct (readable _ _); reflexivity.
      * left. split; [| reflexivity].
        intros img Hin. apply by_id_false. exact (find_none _ _ E img Hin).
    + unfold Cloud.download. rewrite isAdmin_pass by assumption. cbv zeta.
      destruct (JS.parseInt id) as [| K].
      { rewrite find_all_false; reflexivity. }
      destruct (find (by_id (JS.Num K)) (images st)) as [img |] eqn:E.
      * destruct (find_split _ _ _ E) as (l1 & l2 & Himgs & Hp & Hl1).
        right. exists l1, img, l2. repeat split.
        -- exact Himgs.
        -- apply by_id_iff. exact Hp.
        -- intros y Hy. apply by_id_false. auto.
      * left. split; [| reflexivity].
        intros img Hin. apply by_id_false. exact (find_none _ _ E img Hin).
Qed.

Lemma download_spec_witness :
  let img (n : Z) (f : string) :=
    Image.mk n f f None None (JS.Num 1) (Some "admin") 1700000000000
             ("/uploads/" ++ f)%string in
  let st : state (@disk Ref.fs) :=
    mkState [] [] [img 1 "a.png"; img 2 "b.png"]
            [("/srv/gallery/uploads/a.png", "A")] in
  @Local.download Ref.fs st Ref.admin_session "1"
  = (mkResponse 200 (Download "/srv/gallery/uploads/a.png" "a.png"), st)
  /\ @Local.download Ref.fs st Ref.admin_session "2"
     = (mkResponse 404 ErrorPage, st)
  /\ download_outcome 2
       (fun img =>
          if @readable Ref.fs (storage st)
                       (@uploads_path Ref.fs (Image.fileName img))
          then mkResponse 200
                 (Download (@uploads_path Ref.fs (Image.fileName img))
                           (Image.originalName img))
          else mkResponse 404 ErrorPage)
       st (@Local.download Ref.fs st Ref.admin_session "2").
Proof.
  intros img st. split; [reflexivity | split; [reflexivity |]].
  exact (proj1 (proj2 (proj2 (download_spec Ref.fs Ref.cloudinary
                                Ref.admin_session "2")) eq_refl) st).
Defined.

Lemma by_id_toString (img y : Image.t) :
  by_id (JS.parseInt (JS.toString (Image.id img))) y
  = (Image.id y =? Image.id img).
Proof. rewrite parseInt_toString. reflexivity. Qed.

Lemma fresh_id (l : list Image.t) (img : Image.t) :
  (forall y, In y l -> Image.id y <> Image.id img) ->
  (forall y, In y l ->
             by_id (JS.parseInt (JS.toString (Image.id img))) y = false)
  /\ by_id (JS.parseInt (JS.toString (Image.id img))) img = true.
Proof.
  intros H. split.
  - intros y Hy. rewrite by_id_toString. apply Z.eqb_neq. auto.
  - rewrite by_id_toString. apply Z.eqb_refl.
Qed.

(** X9.  A download serves what the upload stored.  After a successful
    upload whose new id is the id of no older image, the download of that
    id by the same admin answers, in the disk copy, with the file at the
    path that the upload moved the file to, under the original name, and
    in the Cloudinary copy with a redirect to the URL that the upload got
    from the media host. *)
Theorem upload_then_download (F : FileSystem) (C : Cloudinary)
        (session : Session.t) (image : option UploadedFile.t)
        (categoryId : option string) (now uploadedAt : Z) :
  (forall (st st1 : state disk) (img : Image.t),
      Local.upload st session image categoryId now uploadedAt
      = (mkResponse 200 (OfImage img), st1) ->
      (forall y, In y (images st) -> Image.id y <> Image.id img) ->
      exists f,
        image = Some f
        /\ mv (storage st) f (uploads_path (Image.fileName img))
           = Some (storage st1)
        /\ Local.download st1 session (JS.toString (Image.id img))
           = (mkResponse 200 (Download (uploads_path (Image.fileName img))
                                       (UploadedFile.name f)),
              st1))
  /\ (forall (st st1 : state cloud) (img : Image.t),
         Cloud.upload st session image categoryId uploadedAt
         = (mkResponse 200 (OfImage img), st1) ->
         (forall y, In y (images st) -> Image.id y <> Image.id img) ->
         exists f c secure_url public_id,
           image = Some f
           /\ upload_stream (storage st) (UploadedFile.data f)
              = Some (c, (secure_url, public_id))
           /\ storage st1 = c
           /\ Cloud.download st1 session (JS.toString (Image.id img))
              = (mkResponse 302 (Redirect (Some secure_url)), st1)).
Proof.
  split; intros st st1 img Hup Hfresh.
  - destruct (local_upload_image _ _ _ _ _ _ _ _ Hup)
      as (f & d & -> & Hadmin & Hmv & Himg & ->).
    destruct (fresh_id _ _ Hfresh) as [Hold Hnew].
    exists f. split; [reflexivity | split].
    + rewrite Himg. exact Hmv.
    + unfold Local.download. rewrite isAdmin_pass by assumption. cbv zeta.
      cbn [images storage]. rewrite (find_snoc_new _ _ _ Hold Hnew).
      rewrite Himg. cbn [Local.newImage Image.fileName Image.originalName].
      rewrite (mv_readable _ _ _ _ Hmv). reflexivity.
  - destruct (cloud_upload_image _ _ _ _ _ _ _ Hup)
      as (f & c & secure_url & public_id & -> & Hadmin & Hs & Himg & ->).
    destruct (fresh_id _ _ Hfresh) as [Hold Hnew].
    exists f, c, secure_url, public_id. repeat split; [exact Hs |].
    unfold Cloud.download. rewrite isAdmin_pass by assumption. cbv zeta.
    cbn [images]. rewrite (find_snoc_new _ _ _ Hold Hnew).
    rewrite Himg. reflexivity.
Qed.

Lemma upload_then_download_witness :
  let st : state (@disk Ref.fs) := mkState [] [] [] [] in
  let f := Ref.jpeg "my cat.jpg" in
  let img := @Local.newImage Ref.fs st Ref.admin_session f (Some "3")
                             1700000000000 1700000000001 in
  let st1 : state (@disk Ref.fs) :=
    mkState [] [] [img]
            [("/srv/gallery/uploads/1700000000000-my-cat.jpg", "JFIF")] in
  exists f',
    Some f = Some f'
    /\ @mv Ref.fs (storage st) f'
           (@uploads_path Ref.fs (Image.fileName img))
       = Some (storage st1)
    /\ @Local.download Ref.fs st1 Ref.admin_session
                       (JS.toString (Image.id img))
       = (mkResponse 200
            (Download (@uploads_path Ref.fs (Image.fileName img))
                      (UploadedFile.name f')),
          st1).
Proof.
  intros st f img st1.
  refine (proj1 (upload_then_download Ref.fs Ref.cloudinary
                   Ref.admin_session (Some f) (Some "3")
                   1700000000000 1700000000001)
                st st1 img eq_refl _).
  intros y [].
Defined.

(** X10.  A delete undoes an upload.  After a successful upload whose
    new id is the id of no older image, the delete of that id by the same
    admin asks the backend to remove what the upload stored (the file at
    the path of the upload, the public id the media host gave); when that
    succeeds the registry, the users and the categories are as before
    the upload, and when it fails the state stays as the upload left
    it. *)
Theorem upload_then_delete (F : FileSystem) (C : Cloudinary)
        (session : Session.t) (image : option UploadedFile.t)
        (categoryId : option string) (now uploadedAt : Z) :
  (forall (st st1 : state disk) (img : Image.t),
      Local.upload st session image categoryId now uploadedAt
      = (mkResponse 200 (OfImage img), st1) ->
      (forall y, In y (images st) -> Image.id y <> Image.id img) ->
      Local.delete st1 session (JS.toString (Image.id img))
      = match unlinkSync (storage st1)
                         (uploads_path (Image.fileName img)) with
        | Some d =>
            (mkResponse 200 (Message "Image deleted successfully"),
             mkState (users st) (categories st) (images st) d)
        | None => (fail 500 "Server error", st1)
        end)
  /\ (forall (st st1 : state cloud) (img : Image.t),
         Cloud.upload st session image categoryId uploadedAt
         = (mkResponse 200 (OfImage img), st1) ->
         (forall y, In y (images st) -> Image.id y <> Image.id img) ->
         Cloud.delete st1 session (JS.toString (Image.id img))
         = match destroy (storage st1) (Image.cloudinaryPublicId img) with
           | Some c =>
               (mkResponse 200 (Message "Image deleted successfully"),
                mkState (users st) (categories st) (images st) c)
           | None => (fail 500 "Failed to delete image", st1)
           end).
Proof.
  split; intros st st1 img Hup Hfresh.
  - destruct (local_upload_image _ _ _ _ _ _ _ _ Hup)
      as (f & d & -> & Hadmin & Hmv & Himg & ->).
    destruct (fresh_id _ _ Hfresh) as [Hold Hnew].
    destruct (findIndex_snoc_new _ _ _ Hold Hnew) as (E1 & E2 & E3).
    unfold Local.delete. rewrite isAdmin_pass by assumption. cbv zeta.
    cbn [images storage]. rewrite E1, E2, E3.
    destruct (unlinkSync _ _); reflexivity.
  - destruct (cloud_upload_image _ _ _ _ _ _ _ Hup)
      as (f & c & secure_url & public_id & -> & Hadmin & Hs & Himg & ->).
    destruct (fresh_id _ _ Hfresh) as [Hold Hnew].
    destruct (findIndex_snoc_new _ _ _ Hold Hnew) as (E1 & E2 & E3).
    unfold Cloud.delete. rewrite isAdmin_pass by assumption. cbv zeta.
    cbn [images storage]. rewrite E1, E2, E3.
    destruct (destroy _ _); reflexivity.
Qed.

Lemma upload_then_delete_witness :
  let st : state (@disk Ref.fs) := mkState [] [] [] [] in
  let img := @Local.newImage Ref.fs st Ref.admin_session
                             (Ref.jpeg "my cat.jpg") (Some "3")
                             1700000000000 1700000000001 in
  let st1 : state (@disk Ref.fs) :=
    mkState [] [] [img]
            [("/srv/gallery/uploads/1700000000000-my-cat.jpg", "JFIF")] in
  @Local.delete Ref.fs st1 Ref.admin_session "1"
  = (mkResponse 200 (Message "Image deleted successfully"), st).
Proof.
  intros st img st1.
  refine (proj1 (upload_then_delete Ref.fs Ref.cloudinary
                   Ref.admin_session (Some (Ref.jpeg "my cat.jpg"))
                   (Some "3") 1700000000000 1700000000001)
                st st1 img eq_refl _).
  intros y [].
Defined.

Lemma filter_images_toString (imgs : list Image.t) (K : Z) :
  filter_images imgs (Some (JS.toString K)) = in_category K imgs.
Proof.
  unfold filter_images, JS.parseInt_field, JS.truthy_field.
  rewrite toString_truthy, parseInt_toString. reflexivity.
Qed.

(** X11.  For categories below 2^53 in magnitude, an upload under the
    category [K] shows up at the end of the listing filtered on [K] and
    at the end of the listing without a filter, and leaves the listing
    filtered on any other category as it was. *)
Theorem upload_then_list (F : FileSystem) (C : Cloudinary)
        (session : Session.t) (image : option UploadedFile.t) (K : Z)
        (now uploadedAt : Z) :
  safe K ->
  (forall (st st1 : state disk) (img : Image.t),
      Local.upload st session image (Some (JS.toString K)) now uploadedAt
      = (mkResponse 200 (OfImage img), st1) ->
      filter_images (images st1) (Some (JS.toString K))
      = filter_images (images st) (Some (JS.toString K)) ++ [img]
      /\ filter_images (images st1) None = images st ++ [img]
      /\ (forall K', safe K' -> K' <> K ->
                     filter_images (images st1) (Some (JS.toString K'))
                     = filter_images (images st) (Some (JS.toString K'))))
  /\ (forall (st st1 : state cloud) (img : Image.t),
         Cloud.upload st session image (Some (JS.toString K)) uploadedAt
         = (mkResponse 200 (OfImage img), st1) ->
         filter_images (images st1) (Some (JS.toString K))
         = filter_images (images st) (Some (JS.toString K)) ++ [img]
         /\ filter_images (images st1) None = images st ++ [img]
         /\ (forall K', safe K' -> K' <> K ->
                        filter_images (images st1) (Some (JS.toString K'))
                        = filter_images (images st) (Some (JS.toString K')))).
Proof.
  intros _.
  assert (forall (imgs : list Image.t) (img : Image.t),
             Image.categoryId img = JS.Num K ->
             filter_images (imgs ++ [img]) (Some (JS.toString K))
             = filter_images imgs (Some (JS.toString K)) ++ [img]
             /\ filter_images (imgs ++ [img]) None = imgs ++ [img]
             /\ (forall K', safe K' -> K' <> K ->
                            filter_images (imgs ++ [img])
                                          (Some (JS.toString K'))
                            = filter_images imgs (Some (JS.toString K'))))
    as Hlist.
  { intros imgs img Hcat. split; [| split].
    - rewrite !filter_images_toString. unfold in_category.
      rewrite filter_app. cbn [filter]. unfold has_category at 2.
      rewrite Hcat, Z.eqb_refl. reflexivity.
    - reflexivity.
    - intros K' _ Hne. rewrite !filter_images_toString. unfold in_category.
      rewrite filter_app. cbn [filter]. unfold has_category at 2.
      rewrite Hcat. replace (K =? K') with false
        by (symmetry; apply Z.eqb_neq; congruence).
      apply app_nil_r. }
  split; intros st st1 img Hup.
  - destruct (local_upload_image _ _ _ _ _ _ _ _ Hup)
      as (f & d & _ & _ & _ & Himg & ->).
    cbn [images]. apply Hlist. rewrite Himg. cbn.
    apply parseInt_toString.
  - destruct (cloud_upload_image _ _ _ _ _ _ _ Hup)
      as (f & c & secure_url & public_id & _ & _ & _ & Himg & ->).
    cbn [images]. apply Hlist. rewrite Himg. cbn.
    apply parseInt_toString.
Qed.

Lemma upload_then_list_witness :
  let old := Image.mk 1 "a.png" "a.png" None None (JS.Num 7) (Some "admin")
                      1700000000000 "/uploads/a.png" in
  let st : state (@disk Ref.fs) := mkState [] [] [old] [] in
  let img := @Local.newImage Ref.fs st Ref.admin_session
                             (Ref.jpeg "my cat.jpg") (Some "3")
                             1700000000000 1700000000001 in
  let st1 : state (@disk Ref.fs) :=
    mkState [] [] [old; img]
            [("/srv/gallery/uploads/1700000000000-my-cat.jpg", "JFIF")] in
  filter_images (images st1) (Some "3") = [img]
  /\ filter_images (images st1) None = [old; img]
  /\ (forall K', safe K' -> K' <> 3 ->
                 filter_images (images st1) (Some (JS.toString K'))
                 = filter_images (images st) (Some (JS.toString K'))).
Proof.
  intros old st img st1.
  exact (proj1 (upload_then_list Ref.fs Ref.cloudinary Ref.admin_session
                  (Some (Ref.jpeg "my cat.jpg")) 3
                  1700000000000 1700000000001 eq_refl)
               st st1 img eq_refl).
Defined.

(** X12.  An upload keeps the ids counting up from 1: when the ids of the
    registry count up from 1 in its order before an upload, they do so
    afterwards, whatever the request and its outcome. *)
Theorem upload_keeps_ids (F : FileSystem) (C : Cloudinary)
        (session : Session.t) (image : option UploadedFile.t)
        (categoryId : option string) (now uploadedAt : Z) :
  (forall st : state disk,
      sequential Image.id (images st) ->
      sequential Image.id
        (images (snd (Local.upload st session image categoryId
                                   now uploadedAt))))
  /\ (forall st : state cloud,
         sequential Image.id (images st) ->
         sequential Image.id
           (images (snd (Cloud.upload st session image categoryId
                                      uploadedAt)))).
Proof.
  split; intros st Hseq.
  - unfold Local.upload, isAdmin.
    destruct (truthy_userId session && truthy_isAdmin session); [| exact Hseq].
    destruct image as [f |]; [| exact Hseq].
    destruct (JS.includes _ _); cbn [negb]; [| exact Hseq].
    destruct (mv _ _ _) as [d |]; [| exact Hseq].
    cbn [snd images set_images].
    apply sequential_snoc; [exact Hseq | reflexivity].
  - unfold Cloud.upload, isAdmin.
    destruct (truthy_userId session && truthy_isAdmin session); [| exact Hseq].
    destruct image as [f |]; [| exact Hseq].
    destruct (JS.includes _ _); cbn [negb]; [| exact Hseq].
    destruct (upload_stream _ _) as [[c [secure_url public_id]] |];
      [| exact Hseq].
    cbn [snd images set_images].
    apply sequential_snoc; [exact Hseq | reflexivity].
Qed.

Lemma upload_keeps_ids_witness :
  let st : state (@disk Ref.fs) := mkState [] [] [] [] in
  sequential Image.id
    (images (snd (@Local.upload Ref.fs st Ref.admin_session
                                (Some (Ref.jpeg "my cat.jpg")) (Some "3")
                                1700000000000 1700000000001))).
Proof.
  intros st.
  exact (proj1 (upload_keeps_ids Ref.fs Ref.cloudinary Ref.admin_session
                  (Some (Ref.jpeg "my cat.jpg")) (Some "3")
                  1700000000000 1700000000001)
               st (sequential_nil Image.id)).
Defined.

Lemma by_id_true (n : JS.number) (img : Image.t) :
  by_id n img = true -> n = JS.Num (Image.id img).
Proof.
  unfold by_id, JS.strict_eq. destruct n as [| z]; [discriminate |].
  intros H. apply Z.eqb_eq in H. congruence.
Qed.

Lemma survivor_with_last_id {A : Type} (id : A -> Z) (l1 l2 : list A) (x : A) :
  sequential id (l1 ++ x :: l2) ->
  id x <> Z.of_nat (List.length (l1 ++ x :: l2)) ->
  exists old, In old (l1 ++ l2)
              /\ id old = Z.of_nat (List.length (l1 ++ l2)) + 1.
Proof.
  intros Hseq Hx.
  destruct l2 as [| b l2'].
  - exfalso. apply Hx.
    rewrite (Hseq (List.length l1) x).
    + rewrite length_app. cbn. lia.
    + rewrite nth_error_app2, Nat.sub_diag by lia. reflexivity.
  - destruct (exists_last (l := b :: l2') ltac:(discriminate))
      as (l2'' & old & E).
    rewrite E in *. exists old. split.
    + apply in_or_app. right. apply in_or_app. right. left. reflexivity.
    + rewrite (Hseq (List.length l1 + S (List.length l2''))%nat old).
      * rewrite !length_app. cbn. lia.
      * rewrite nth_error_app2 by lia.
        replace (List.length l1 + S (List.length l2'') - List.length l1)%nat
          with (S (List.length l2'')) by lia.
        cbn [nth_error].
        rewrite nth_error_app2, Nat.sub_diag by lia. reflexivity.
Qed.

Lemma repeated_id (l : list Image.t) (old img : Image.t) :
  In old l -> Image.id old = Image.id img ->
  ~ NoDup (map Image.id (l ++ [img])).
Proof.
  intros Hin Hid Hnd. rewrite map_app in Hnd. cbn in Hnd.
  apply NoDup_remove_2 in Hnd. apply Hnd. rewrite app_nil_r.
  rewrite <- Hid. apply in_map. exact Hin.
Qed.

(** X13.  The ids of images do not stay unique.  In a registry whose ids
    count up from 1, after the successful delete of any image but the
    last one, the next successful upload gives its image the id of an
    image that is still in the registry (the former last one), so that
    two images of the registry share an id. *)
Theorem ids_repeat_after_delete (F : FileSystem) (C : Cloudinary)
        (session : Session.t) (id : string) (image : option UploadedFile.t)
        (categoryId : option string) (now uploadedAt : Z) :
  (forall (st st1 st2 : state disk) (img : Image.t),
      sequential Image.id (images st) ->
      JS.parseInt id <> JS.Num (Z.of_nat (List.length (images st))) ->
      Local.delete st session id
      = (mkResponse 200 (Message "Image deleted successfully"), st1) ->
      Local.upload st1 session image categoryId now uploadedAt
      = (mkResponse 200 (OfImage img), st2) ->
      (exists old, In old (images st) /\ In old (images st1)
                   /\ Image.id old = Image.id img)
      /\ images st2 = images st1 ++ [img]
      /\ ~ NoDup (map Image.id (images st2)))
  /\ (forall (st st1 st2 : state cloud) (img : Image.t),
         sequential Image.id (images st) ->
         JS.parseInt id <> JS.Num (Z.of_nat (List.length (images st))) ->
         Cloud.delete st session id
         = (mkResponse 200 (Message "Image deleted successfully"), st1) ->
         Cloud.upload st1 session image categoryId uploadedAt
         = (mkResponse 200 (OfImage img), st2) ->
         (exists old, In old (images st) /\ In old (images st1)
                      /\ Image.id old = Image.id img)
         /\ images st2 = images st1 ++ [img]
         /\ ~ NoDup (map Image.id (images st2))).
Proof.
  split; intros st st1 st2 img Hseq Hnotlast Hdel Hup.
  - destruct (local_delete_image _ _ _ _ Hdel)
      as (l1 & x & l2 & d & _ & Himgs & Hx & _ & _ & ->).
    destruct (local_upload_image _ _ _ _ _ _ _ _ Hup)
      as (f & d' & _ & _ & _ & Himg & ->).
    cbn [images] in *. apply by_id_true in Hx.
    rewrite Himgs in Hseq, Hnotlast.
    destruct (survivor_with_last_id Image.id l1 l2 x Hseq)
      as (old & Hold & Hid); [congruence |].
    assert (Image.id old = Image.id img) as E by (rewrite Himg; exact Hid).
    split; [| split; [reflexivity | exact (repeated_id _ _ _ Hold E)]].
    exists old. repeat split; auto.
    rewrite Himgs. apply in_app_or in Hold as [H | H];
      apply in_or_app; [left | right; right]; exact H.
  - destruct (cloud_delete_image _ _ _ _ Hdel)
      as (l1 & x & l2 & c & _ & Himgs & Hx & _ & _ & ->).
    destruct (cloud_upload_image _ _ _ _ _ _ _ Hup)
      as (f & c' & secure_url & public_id & _ & _ & _ & Himg & ->).
    cbn [images] in *. apply by_id_true in Hx.
    rewrite Himgs in Hseq, Hnotlast.
    destruct (survivor_with_last_id Image.id l1 l2 x Hseq)
      as (old & Hold & Hid); [congruence |].
    assert (Image.id old = Image.id img) as E by (rewrite Himg; exact Hid).
    split; [| split; [reflexivity | exact (repeated_id _ _ _ Hold E)]].
    exists old. repeat split; auto.
    rewrite Himgs. apply in_app_or in Hold as [H | H];
      apply in_or_app; [left | right; right]; exact H.
Qed.

Lemma ids_repeat_after_delete_witness :
  let img (n : Z) (f : string) :=
    Image.mk n f f None None (JS.Num 1) (Some "admin") 1700000000000
             ("/uploads/" ++ f)%string in
  let st : state (@disk Ref.fs) :=
    mkState [] [] [img 1 "a.png"; img 2 "b.png"]
            [("/srv/gallery/uploads/a.png", "A");
             ("/srv/gallery/uploads/b.png", "B")] in
  let st1 : state (@disk Ref.fs) :=
    mkState [] [] [img 2 "b.png"] [("/srv/gallery/uploads/b.png", "B")] in
  let new := @Local.newImage Ref.fs st1 Ref.admin_session (Ref.jpeg "c.jpg")
                             (Some "1") 1700000000500 1700000000501 in
  Image.id new = 2
  /\ ~ NoDup (map Image.id [img 2 "b.png"; new]).
Proof.
  intros img st st1 new. split; [reflexivity |].
  refine (proj2 (proj2
    (proj1 (ids_repeat_after_delete Ref.fs Ref.cloudinary Ref.admin_session
              "1" (Some (Ref.jpeg "c.jpg")) (Some "1")
              1700000000500 1700000000501)
           st st1
           (mkState [] [] [img 2 "b.png"; new]
              [("/srv/gallery/uploads/1700000000500-c.jpg", "JFIF");
               ("/srv/gallery/uploads/b.png", "B")])
           new _ _ eq_refl eq_refl))).
  - intros [| [| [| i]]] x H; cbn in H; try discriminate H;
      injection H as <-; reflexivity.
  - cbn. discriminate.
Defined.

(** X14.  In a registry with unique ids a delete is final: after the
    successful delete of an id, no image has that id, the ids are still
    unique, and a second delete and a download of the same id answer
    404 and change nothing. *)
Theorem delete_is_final (F : FileSystem) (C : Cloudinary)
        (session : Session.t) (id : string) :
  (forall st st1 : state disk,
      NoDup (map Image.id (images st)) ->
      Local.delete st session id
      = (mkResponse 200 (Message "Image deleted successfully"), st1) ->
      (forall y, In y (images st1) -> JS.parseInt id <> JS.Num (Image.id y))
      /\ NoDup (map Image.id (images st1))
      /\ Local.delete st1 session id = (fail 404 "Image not found", st1)
      /\ Local.download st1 session id = (fail 404 "Image not found", st1))
  /\ (forall st st1 : state cloud,
         NoDup (map Image.id (images st)) ->
         Cloud.delete st session id
         = (mkResponse 200 (Message "Image deleted successfully"), st1) ->
         (forall y, In y (images st1) -> JS.parseInt id <> JS.Num (Image.id y))
         /\ NoDup (map Image.id (images st1))
         /\ Cloud.delete st1 session id = (fail 404 "Image not found", st1)
         /\ Cloud.download st1 session id = (fail 404 "Image not found", st1)).
Proof.
  assert (forall (l1 l2 : list Image.t) (x : Image.t),
             NoDup (map Image.id (l1 ++ x :: l2)) ->
             by_id (JS.parseInt id) x = true ->
             NoDup (map Image.id (l1 ++ l2))
             /\ (forall y, In y (l1 ++ l2) ->
                           JS.parseInt id <> JS.Num (Image.id y))
             /\ (forall y, In y (l1 ++ l2) ->
                           by_id (JS.parseInt id) y = false)) as Hgone.
  { intros l1 l2 x Hnd Hx. apply by_id_true in Hx.
    rewrite map_app in Hnd. cbn [map] in Hnd.
    pose proof (NoDup_remove_1 _ _ _ Hnd) as Hnd1.
    pose proof (NoDup_remove_2 _ _ _ Hnd) as Hnotin.
    rewrite <- map_app in Hnd1, Hnotin.
    assert (forall y, In y (l1 ++ l2) -> Image.id y <> Image.id x) as Hne.
    { intros y Hy E. apply Hnotin. rewrite <- E. apply in_map. exact Hy. }
    split; [exact Hnd1 | split].
    - intros y Hy E. rewrite Hx in E. injection E as E.
      apply (Hne y Hy). congruence.
    - intros y Hy. rewrite Hx. apply Z.eqb_neq. auto. }
  split; intros st st1 Hnd Hdel.
  - destruct (local_delete_image _ _ _ _ Hdel)
      as (l1 & x & l2 & d & Hadmin & Himgs & Hx & _ & _ & ->).
    rewrite Himgs in Hnd.
    destruct (Hgone l1 l2 x Hnd Hx) as (Hnd1 & Hne & Hfalse).
    cbn [images]. repeat split; auto.
    + unfold Local.delete. rewrite isAdmin_pass by assumption. cbv zeta.
      cbn [images]. rewrite (findIndex_all_false _ _ Hfalse). reflexivity.
    + unfold Local.download. rewrite isAdmin_pass by assumption. cbv zeta.
      cbn [images]. rewrite (find_all_false _ _ Hfalse). reflexivity.
  - destruct (cloud_delete_image _ _ _ _ Hdel)
      as (l1 & x & l2 & c & Hadmin & Himgs & Hx & _ & _ & ->).
    rewrite Himgs in Hnd.
    destruct (Hgone l1 l2 x Hnd Hx) as (Hnd1 & Hne & Hfalse).
    cbn [images]. repeat split; auto.
    + unfold Cloud.delete. rewrite isAdmin_pass by assumption. cbv zeta.
      cbn [images]. rewrite (findIndex_all_false _ _ Hfalse). reflexivity.
    + unfold Cloud.download. rewrite isAdmin_pass by assumption. cbv zeta.
      cbn [images]. rewrite (find_all_false _ _ Hfalse). reflexivity.
Qed.

Lemma delete_is_final_witness :
  let img (n : Z) (f : string) :=
    Image.mk n f f None None (JS.Num 1) (Some "admin") 1700000000000
             ("/uploads/" ++ f)%string in
  let st1 : state (@disk Ref.fs) :=
    mkState [] [] [img 2 "b.png"] [("/srv/gallery/uploads/b.png", "B")] in
  @Local.delete Ref.fs st1 Ref.admin_session "1"
  = (fail 404 "Image not found", st1).
Proof.
  intros img st1.
  refine (proj1 (proj2 (proj2
    (proj1 (delete_is_final Ref.fs Ref.cloudinary Ref.admin_session "1")
           (mkState [] [] [img 1 "a.png"; img 2 "b.png"]
              [("/srv/gallery/uploads/a.png", "A");
               ("/srv/gallery/uploads/b.png", "B")])
           st1 _ eq_refl)))).
  cbn. repeat constructor; cbn; intuition discriminate.
Defined.

(** ** The file name of an upload *)

Lemma every_app (p : ascii -> bool) (s t : string) :
  every p (s ++ t)%string = every p s && every p t.
Proof.
  induction s as [| c s IH]; cbn [every String.append].
  - reflexivity.
  - rewrite IH. apply andb_assoc.
Qed.

Lemma every_digits_of (p : ascii -> bool) (fuel : nat) :
  (forall c, is_decimal c -> p c = true) ->
  forall (n : Z) (acc : string),
    every p acc = true -> every p (JS.digits_of fuel n acc) = true.
Proof.
  intros Hp. induction fuel as [| fuel IH]; intros n acc Hacc.
  - exact Hacc.
  - assert (every p (String (JS.digit_char (n mod 10)) acc) = true) as H.
    { cbn [every]. rewrite Hacc, Hp; [reflexivity |].
      exists (n mod 10). split; [apply Z.mod_pos_bound; lia | reflexivity]. }
    cbn [JS.digits_of]. destruct (n <? 10); auto.
Qed.

Lemma decimal_not_white_space (c : ascii) :
  is_decimal c -> not_white_space c = true.
Proof. intros H. decimal_cases H; reflexivity. Qed.

Lemma every_toString (n : Z) : every not_white_space (JS.toString n) = true.
Proof.
  unfold JS.toString. destruct (n <? 0).
  - cbn [every]. rewrite every_digits_of; auto using decimal_not_white_space.
  - apply every_digits_of; auto using decimal_not_white_space.
Qed.

Lemma every_replace (s : string) :
  every not_white_space (JS.replace_white_space s) = true.
Proof.
  induction s as [| c s IH]; cbn [every JS.replace_white_space].
  - reflexivity.
  - rewrite IH, andb_true_r.
    destruct (JS.is_white_space c) eqn:E; [reflexivity |].
    unfold not_white_space. rewrite E. reflexivity.
Qed.

(** X15.  The file name that the disk copy stores an upload under holds
    no white space, whatever the name of the uploaded file: it is the
    clock's digits, a hyphen, and the original name with a hyphen for
    every white space character.  The replacement keeps the length of
    the name, and a name without white space is kept as it is. *)
Theorem fileName_no_white_space (now : Z) (image : UploadedFile.t) :
  every not_white_space (Local.fileName now image) = true
  /\ String.length (JS.replace_white_space (UploadedFile.name image))
     = String.length (UploadedFile.name image)
  /\ (every not_white_space (UploadedFile.name image) = true ->
      Local.fileName now image
      = (JS.toString now ++ "-" ++ UploadedFile.name image)%string).
Proof.
  unfold Local.fileName. split; [| split].
  - rewrite !every_app, every_toString, every_replace. reflexivity.
  - induction (UploadedFile.name image) as [| c s IH]; cbn; congruence.
  - intros H. do 2 f_equal.
    induction (UploadedFile.name image) as [| c s IH];
      cbn [JS.replace_white_space]; [reflexivity |].
    cbn [every] in H. apply andb_prop in H as [Hc Hs].
    unfold not_white_space in Hc. apply negb_true_iff in Hc.
    rewrite Hc, (IH Hs). reflexivity.
Qed.

Lemma fileName_no_white_space_witness :
  Local.fileName 1700000000000 (Ref.jpeg "cat.jpg") = "1700000000000-cat.jpg".
Proof.
  exact (proj2 (proj2 (fileName_no_white_space 1700000000000
                         (Ref.jpeg "cat.jpg"))) eq_refl).
Defined.

(** ** What the image handlers leave alone *)

Ltac handler_cases :=
  repeat match goal with
         | |- context [if ?b then _ else _] => destruct b
         | |- context [match ?x with _ => _ end] => destruct x
         end.

(** X16.  The upload, download and delete handlers of both copies never
    touch the users or the categories, whatever the request and its
    outcome. *)
Theorem image_handlers_frame (F : FileSystem) (C : Cloudinary)
        (session : Session.t) :
  (forall (st : state disk) image categoryId now uploadedAt,
      let st' := snd (Local.upload st session image categoryId
                                   now uploadedAt) in
      users st' = users st /\ categories st' = categories st)
  /\ (forall (st : state disk) id,
         let st' := snd (Local.delete st session id) in
         users st' = users st /\ categories st' = categories st)
  /\ (forall (st : state cloud) image categoryId uploadedAt,
         let st' := snd (Cloud.upload st session image categoryId
                                      uploadedAt) in
         users st' = users st /\ categories st' = categories st)
  /\ (forall (st : state cloud) id,
         let st' := snd (Cloud.delete st session id) in
         users st' = users st /\ categories st' = categories st).
Proof.
  repeat split; intros;
    unfold Local.upload, Local.delete, Cloud.upload, Cloud.delete, isAdmin;
    cbv zeta; handler_cases; reflexivity.
Qed.

(** X17.  An upload does not look at the users or at the categories: its
    answer, and the registry and the storage it leaves, are the same on
    two states that differ in those arrays only.  In particular the
    category of an upload need not exist. *)
Theorem upload_ignores_categories (F : FileSystem) (C : Cloudinary)
        (session : Session.t) (image : option UploadedFile.t)
        (categoryId : option string) (now uploadedAt : Z)
        (us : list User.t) (cats : list Category.t) :
  (forall st : state disk,
      let r := Local.upload st session image categoryId now uploadedAt in
      let r' := Local.upload (mkState us cats (images st) (storage st))
                             session image categoryId now uploadedAt in
      fst r' = fst r /\ images (snd r') = images (snd r)
      /\ storage (snd r') = storage (snd r))
  /\ (forall st : state cloud,
         let r := Cloud.upload st session image categoryId uploadedAt in
         let r' := Cloud.upload (mkState us cats (images st) (storage st))
                                session image categoryId uploadedAt in
         fst r' = fst r /\ images (snd r') = images (snd r)
         /\ storage (snd r') = storage (snd r)).
Proof.
  split; intros st;
    unfold Local.upload, Cloud.upload, isAdmin; cbn [images storage];
    handler_cases; repeat split.
Qed.

(** ** The filter of the listing, for any query *)

(** X18.  The listing reads its filter with [parseInt]: an empty
    [categoryId] in the query is no filter at all and returns every
    image; a non-empty one that reads as an integer [K] below 2^53 in
    magnitude, whatever follows the digits, returns the images of
    category [K]; a non-empty one that reads as no number returns the
    empty list, with status 200 in every case. *)
Theorem list_images_any_query (S : Type) (st : state S) (q : string) :
  status (list_images st (Some q)) = 200
  /\ (q = "" -> list_images st (Some q) = list_images st None)
  /\ (q <> "" ->
      match JS.parseInt q with
      | JS.Num K =>
          safe K ->
          list_images st (Some q)
          = mkResponse 200 (OfImages (in_category K (images st)))
      | JS.NaN => list_images st (Some q) = mkResponse 200 (OfImages [])
      end).
Proof.
  split; [reflexivity | split].
  - intros ->. reflexivity.
  - intros Hq. unfold list_images, filter_images, JS.truthy_field,
                 JS.parseInt_field.
    destruct q as [| c q']; [congruence |]. cbn [JS.truthy_string].
    destruct (JS.parseInt (String c q')) as [| K].
    + unfold json. do 2 f_equal.
      induction (images st) as [| img l IH]; [reflexivity |].
      cbn [filter]. destruct (Image.categoryId img); exact IH.
    + intros _. unfold json, in_category.
      rewrite (filter_ext _ (has_category K)); [reflexivity |].
      intros img. unfold has_category, JS.strict_eq.
      destruct (Image.categoryId img); reflexivity.
Qed.

Lemma list_images_any_query_witness :
  let a := Image.mk 1 "a.png" "a.png" None None (JS.Num 7) (Some "admin")
                    1700000000000 "/uploads/a.png" in
  let b := Image.mk 2 "b.png" "b.png" None None JS.NaN (Some "admin")
                    1700000000001 "/uploads/b.png" in
  let st := mkState (S := unit) [] [] [a; b] tt in
  list_images st (Some " 7th") = mkResponse 200 (OfImages [a])
  /\ list_images st (Some "seven") = mkResponse 200 (OfImages [])
  /\ list_images st (Some "") = mkResponse 200 (OfImages [a; b]).
Proof.
  intros a b st. split; [| split].
  - refine (proj2 (proj2 (list_images_any_query unit st " 7th")) _ eq_refl).
    discriminate.
  - refine (proj2 (proj2 (list_images_any_query unit st "seven")) _).
    discriminate.
  - exact (proj1 (proj2 (list_images_any_query unit st "")) eq_refl).
Defined.

(** ** The ids of images are positive *)

(** X19.  Uniqueness is lost on deletes, positivity is not: when every
    image of the registry has an id of at least 1, this is so after any
    upload and any delete of either copy, whatever the request and its
    outcome. *)
Theorem image_ids_stay_positive (F : FileSystem) (C : Cloudinary)
        (session : Session.t) :
  (forall (st : state disk) image categoryId now uploadedAt,
      Forall (fun y => 1 <= Image.id y) (images st) ->
      Forall (fun y => 1 <= Image.id y)
             (images (snd (Local.upload st session image categoryId
                                        now uploadedAt))))
  /\ (forall (st : state disk) id,
         Forall (fun y => 1 <= Image.id y) (images st) ->
         Forall (fun y => 1 <= Image.id y)
                (images (snd (Local.delete st session id))))
  /\ (forall (st : state cloud) image categoryId uploadedAt,
         Forall (fun y => 1 <= Image.id y) (images st) ->
         Forall (fun y => 1 <= Image.id y)
                (images (snd (Cloud.upload st session image categoryId
                                           uploadedAt))))
  /\ (forall (st : state cloud) id,
         Forall (fun y => 1 <= Image.id y) (images st) ->
         Forall (fun y => 1 <= Image.id y)
                (images (snd (Cloud.delete st session id)))).
Proof.
  repeat split; intros until 1;
    unfold Local.upload, Local.delete, Cloud.upload, Cloud.delete, isAdmin;
    cbv zeta; handler_cases; cbn [snd images set_images]; auto;
    try (apply Forall_splice1; assumption).
  all: apply Forall_snoc; [assumption | cbn; lia].
Qed.

Lemma image_ids_stay_positive_witness :
  let st : state (@disk Ref.fs) := mkState [] [] [] [] in
  Forall (fun y => 1 <= Image.id y)
         (images (snd (@Local.upload Ref.fs st Ref.admin_session
                                     (Some (Ref.jpeg "my cat.jpg")) (Some "3")
                                     1700000000000 1700000000001))).
Proof.
  intros st.
  exact (proj1 (image_ids_stay_positive Ref.fs Ref.cloudinary
                  Ref.admin_session)
               st (Some (Ref.jpeg "my cat.jpg")) (Some "3")
               1700000000000 1700000000001 (Forall_nil _)).
Defined.
